(** * ing2ofx: a shallow embedding of [ing2ofx.py] and its specification

    The program converts a CSV export of the ING bank into OFX.  It is a
    Python 2 script: its strings are byte strings, modelled here by [string]
    (a list of 8-bit [ascii] characters), its integers are unbounded ([Z]),
    its dictionaries and sets are finite maps and finite sets ([gmap],
    [gset]), and an uncaught exception is a [Raise] in the [result] monad.

    Layout: the Python built-ins the script calls ([str.replace],
    [str.strip], [int], [str], [min], [max], a fragment of [re]), then the
    functions of [ing2ofx.py] in source order, then the vocabulary of the
    specification and the auxiliary definitions of the proofs, with
    [open_output], [main] and, in the module [Raw], the reading of rows
    that have [None] fields, then the lemmas and the theorems, which are
    numbered C1 to C10 after the statements of the specification they
    settle, and X1 to X17 for the further properties of the code: of
    [read_csv_file], [fix_text], [make_unique_id], [write_ofx_file],
    [open_output] and [main]. *)

From Stdlib Require Import ZArith Ascii String.
From stdpp Require Import gmap strings list fin_maps pretty sorting.

(** ** Exceptions *)

(** The exceptions the script can raise and never catches. *)
Inductive exn : Type :=
  | KeyError (key : string)      (* d[k] with k missing from d *)
  | ValueError (what : string)   (* int() of a non-number, min() of nothing *)
  | LoopBound                    (* a while loop of the model ran out of steps *)
  | KeyErrorNone                 (* d[None] with None missing from d *)
  | TypeError                    (* None where a string is needed *)
  | AttributeError.              (* a method of None *)

Inductive result (A : Type) : Type :=
  | Ok (a : A)
  | Raise (e : exn).
Arguments Ok {A} a.
Arguments Raise {A} e.

(** Sequencing: an exception ends the computation.  The notation
    [x ← m; k] of stdpp's monads is used for it. *)
#[global] Instance result_bind : MBind result := λ A B k m,
  match m with
  | Ok a => k a
  | Raise e => Raise e
  end.

Fixpoint map_result {A B} (f : A → result B) (l : list A) : result (list B) :=
  match l with
  | [] => Ok []
  | a :: l' => b ← f a; bs ← map_result f l'; Ok (b :: bs)
  end.

(** [d[k]] on a dictionary. *)
Definition getitem {V} (d : gmap string V) (k : string) : result V :=
  match d !! k with
  | Some v => Ok v
  | None => Raise (KeyError k)
  end.

(** ** Python byte strings *)

Definition isspace (c : ascii) : bool :=
  let n := nat_of_ascii c in
  ((9 <=? n) && (n <=? 13)) || (n =? 32).

Definition isdigit (c : ascii) : bool :=
  let n := nat_of_ascii c in
  (48 <=? n) && (n <=? 57).

(** [s.startswith(p)] *)
Fixpoint startswith (p s : string) : bool :=
  match p, s with
  | EmptyString, _ => true
  | String a p', String b s' => Ascii.eqb a b && startswith p' s'
  | String _ _, EmptyString => false
  end.

(** [s.replace(old, new)] for a non-empty [old]: the occurrences of [old]
    are replaced from left to right, without overlap.  [skip] counts the
    characters of an occurrence that are still to be passed over. *)
Fixpoint replace_from (old new s : string) (skip : nat) : string :=
  match s with
  | EmptyString => EmptyString
  | String c s' =>
      match skip with
      | S k => replace_from old new s' k
      | O =>
          if startswith old s
          then new +:+ replace_from old new s' (String.length old - 1)
          else String c (replace_from old new s' 0)
      end
  end.

Definition replace (old new s : string) : string := replace_from old new s 0.

Fixpoint lstrip (s : string) : string :=
  match s with
  | EmptyString => EmptyString
  | String c s' => if isspace c then lstrip s' else s
  end.

Fixpoint rstrip (s : string) : string :=
  match s with
  | EmptyString => EmptyString
  | String c s' =>
      match rstrip s' with
      | EmptyString => if isspace c then EmptyString else String c EmptyString
      | t => String c t
      end
  end.

(** [s.strip()] *)
Definition strip (s : string) : string := rstrip (lstrip s).

(** [str(n)] of an integer: its decimal numeral. *)
Definition str (n : Z) : string := pretty n.

Definition digit_value (c : ascii) : Z := Z.of_nat (nat_of_ascii c) - 48.

Fixpoint int_digits (acc : Z) (s : string) : option Z :=
  match s with
  | EmptyString => Some acc
  | String c s' =>
      if isdigit c then int_digits (10 * acc + digit_value c) s' else None
  end.

(** [int(s)]: blanks around the numeral are dropped, a sign is allowed, and
    at least one digit is required. *)
Definition int (s : string) : result Z :=
  let t := strip s in
  let negative := startswith "-" t in
  let digits :=
    if negative || startswith "+" t then substring 1 (String.length t) t
    else t in
  match digits, int_digits 0 digits with
  | String _ _, Some n => Ok (if negative then (- n)%Z else n)
  | _, _ => Raise (ValueError s)
  end.

(** [min(l)] and [max(l)] of a sequence of integers. *)
Definition min_of (l : list Z) : result Z :=
  match l with
  | [] => Raise (ValueError "min() arg is an empty sequence")
  | x :: l' => Ok (foldl Z.min x l')
  end.

Definition max_of (l : list Z) : result Z :=
  match l with
  | [] => Raise (ValueError "max() arg is an empty sequence")
  | x :: l' => Ok (foldl Z.max x l')
  end.

(** ** The fragment of [re] the script uses *)

Inductive cclass : Type :=
  | Lit (c : ascii)   (* the character itself *)
  | Digit.            (* \d and [0-9] *)

Definition accepts (a : cclass) (c : ascii) : bool :=
  match a with
  | Lit c' => Ascii.eqb c' c
  | Digit => isdigit c
  end.

Inductive regex : Type :=
  | Eps
  | One (a : cclass)
  | Cat (r1 r2 : regex)
  | Opt (r : regex)         (* r? , greedy *)
  | Plus (a : cclass)       (* a+ , greedy *)
  | Grp (r : regex).        (* ( r ), a capturing group *)

(** [r{n}] *)
Fixpoint Rep (n : nat) (r : regex) : regex :=
  match n with
  | O => Eps
  | S n' => Cat r (Rep n' r)
  end.

(** The literal [w]. *)
Fixpoint Str (w : string) : regex :=
  match w with
  | EmptyString => Eps
  | String c w' => Cat (One (Lit c)) (Str w')
  end.

(** The remainders of [s] after one or more characters of class [a], the
    longest run first. *)
Fixpoint plus_matches (a : cclass) (s : string) : list string :=
  match s with
  | EmptyString => []
  | String c s' => if accepts a c then plus_matches a s' ++ [s'] else []
  end.

(** All the ways [r] matches a prefix of [s], in the order in which a
    backtracking matcher tries them: each is the remainder of [s] with the
    groups captured so far.  The groups of the script's patterns are not
    nested, so a group is numbered when it closes. *)
Fixpoint matches (r : regex) (s : string) (caps : list string)
    : list (string * list string) :=
  match r with
  | Eps => [(s, caps)]
  | One a =>
      match s with
      | String c s' => if accepts a c then [(s', caps)] else []
      | EmptyString => []
      end
  | Cat r1 r2 => mbind (λ m, matches r2 m.1 m.2) (matches r1 s caps)
  | Opt r' => matches r' s caps ++ [(s, caps)]
  | Plus a => (λ s', (s', caps)) <$> plus_matches a s
  | Grp r' =>
      (λ m, (m.1, m.2 ++ [substring 0 (String.length s - String.length m.1) s]))
        <$> matches r' s caps
  end.

(** [re.search(r, s)]: the groups of the first match of [r], scanning the
    start positions from the left. *)
Fixpoint re_search (r : regex) (s : string) : option (list string) :=
  match matches r s [] with
  | m :: _ => Some m.2
  | [] =>
      match s with
      | EmptyString => None
      | String _ s' => re_search r s'
      end
  end.

(** [m.group(i)], for [i >= 1]. *)
Definition group (m : list string) (i : nat) : string :=
  nth (i - 1) m EmptyString.

(** [re.sub(r, repl, s)]: the matches are replaced from left to right,
    without overlap.  [skip] counts the characters of a match that are still
    to be passed over, and [adjacent] tells that a match ends where [s]
    begins: an empty match there is ignored, as [re] does. *)
Fixpoint re_sub_from (r : regex) (repl s : string) (skip : nat)
    (adjacent : bool) : string :=
  match s with
  | EmptyString =>
      match matches r s [] with
      | _ :: _ => if adjacent then EmptyString else repl
      | [] => EmptyString
      end
  | String c s' =>
      match skip with
      | S k => re_sub_from r repl s' k true
      | O =>
          match matches r s [] with
          | m :: _ =>
              match String.length s - String.length m.1 with
              | O =>
                  (if adjacent then EmptyString else repl) +:+
                  String c (re_sub_from r repl s' 0 false)
              | S n => repl +:+ re_sub_from r repl s' n true
              end
          | [] => String c (re_sub_from r repl s' 0 false)
          end
      end
  end.

Definition re_sub (r : regex) (repl s : string) : string :=
  re_sub_from r repl s 0 false.

(** ** ing2ofx.py *)

Definition af_bij_codes : gset string := {[ "DV"; "OV"; "VZ" ]}.

Definition af_bij_map : gmap string string :=
  {[ "Af" := "DEBIT"; "Bij" := "CREDIT" ]}.

Definition trn_codes : gmap string string :=
  {[ "GT" := "PAYMENT"; "BA" := "POS"; "GM" := "ATM";
     "IC" := "DIRECTDEBIT"; "ST" := "DIRECTDEP" ]}.

Definition ing_code_to_trntype (ing_code af_bij : string) : result string :=
  if decide (ing_code ∈ af_bij_codes)
  then getitem af_bij_map af_bij
  else Ok (default "OTHER" (trn_codes !! ing_code)).

(** The docstring of the function: converts the amount to negative iff
    [af_bij] is ['Af'], and replaces [','] by ['.']. *)
Definition get_transaction_amount (amount af_bij : string) : string :=
  let amount := replace "," "." amount in
  let sign := if decide (af_bij = "Af") then "-" else "" in
  sign +:+ amount.

(** The pattern ['  +']. *)
Definition two_or_more_spaces : regex := Cat (One (Lit " ")) (Plus (Lit " ")).

Definition fix_text (ing_text : string) : string :=
  let text := strip (re_sub two_or_more_spaces " " ing_text) in
  replace "<" "&lt;" (replace ">" "&gt;" (replace "&" "&amp;" text)).

(** The pattern [\d{2}-\d{2}-(?:20)?\d{2} ([0-9]{2}):([0-9]{2})]. *)
Definition date_time : regex :=
  Cat (Rep 2 (One Digit)) (Cat (One (Lit "-"))
  (Cat (Rep 2 (One Digit)) (Cat (One (Lit "-"))
  (Cat (Opt (Str "20")) (Cat (Rep 2 (One Digit)) (Cat (One (Lit " "))
  (Cat (Grp (Rep 2 (One Digit))) (Cat (One (Lit ":"))
  (Grp (Rep 2 (One Digit))))))))))).

(** The comment of the function: extracts time from Mededelingen if
    there is something in there resembling a date time. *)
Definition extract_time (memo : string) : string :=
  match re_search date_time memo with
  | Some m => group m 1 +:+ group m 2
  | None => ""
  end.

(** The loop of [make_unique_id].  [steps] bounds the number of times the
    loop test is evaluated; [make_unique_id] gives it one more than the
    number of used IDs, which is enough for the loop to leave by its test
    (lemma [unique_id_loop_returns]). *)
Fixpoint unique_id_loop (steps : nat) (fitid : string) (idcount : Z)
    (unique_id : string) (idslist : gset string) : result string :=
  match steps with
  | O => Raise LoopBound
  | S steps' =>
      if decide (unique_id ∈ idslist)
      then
        let idcount := (idcount + 1)%Z in
        unique_id_loop steps' fitid idcount (fitid +:+ str idcount) idslist
      else Ok unique_id
  end.

Definition make_unique_id (accountto dtposted time trnamt : string)
    (idslist : gset string) : result string :=
  let fitid :=
    ((accountto +:+ dtposted) +:+ time)
      +:+ replace "." "" (replace "-" "" trnamt) in
  unique_id_loop (S (size idslist)) fitid 0 fitid idslist.

(** A transaction: the dictionary [read_csv_file] builds for a row, with
    its eight keys. *)
Record transaction : Type := Transaction {
  account : string;
  trntype : string;
  dtposted : string;
  trnamt : string;
  fitid : string;
  name : string;
  accountto : string;
  memo : string
}.

(** The pattern [' +']. *)
Definition spaces : regex := Plus (Lit " ").

(** The loop of [read_csv_file] over the rows, in two parts.  A row is the
    dictionary [csv.DictReader] yields, from column names to fields, every
    field a string; a column that the file does not have is a [KeyError].
    (These are the rows of the lines that have all their fields.  A line
    that is too short gives a row with [None] fields: the module [Raw]
    below is the script on such rows, and it agrees with the functions
    here on the rows without [None].)
    [row_transaction] is the first part of the body: it computes the fields
    of the transaction of [row], given the set of the IDs used so far. *)
Definition row_transaction (row : gmap string string) (idslist : gset string)
    : result transaction :=
  rekening ← getitem row "Rekening";
  let account := re_sub spaces "" rekening in
  code ← getitem row "Code";
  af_bij ← getitem row "Af Bij";
  trntype ← ing_code_to_trntype code af_bij;
  dtposted ← getitem row "Datum";
  bedrag ← getitem row "Bedrag (EUR)";
  let trnamt := get_transaction_amount bedrag af_bij in
  naam ← getitem row "Naam / Omschrijving";
  let name := fix_text naam in
  accountto ← getitem row "Tegenrekening";
  mededelingen ← getitem row "Mededelingen";
  let memo := fix_text mededelingen in
  let time := extract_time memo in
  unique_id ← make_unique_id accountto dtposted time trnamt idslist;
  Ok {| account := account; trntype := trntype; dtposted := dtposted;
        trnamt := trnamt; fitid := unique_id; name := name;
        accountto := accountto; memo := memo |}.

(** [transactions[month].append(t)] on a [defaultdict(list)]. *)
Definition append_to (month : string) (t : transaction)
    (transactions : gmap string (list transaction))
    : gmap string (list transaction) :=
  <[ month := default [] (transactions !! month) ++ [t] ]> transactions.

(** The whole body: the state is the set of used IDs with the transactions
    by month; the ID of the new transaction is added to the set, and the
    transaction to the list of its month. *)
Definition read_row (split_by_month : bool)
    (st : gset string * gmap string (list transaction))
    (row : gmap string string)
    : result (gset string * gmap string (list transaction)) :=
  t ← row_transaction row st.1;
  let idslist := {[ fitid t ]} ∪ st.1 in
  let month := if split_by_month then substring 0 6 (dtposted t) else "" in
  Ok (idslist, append_to month t st.2).

Fixpoint read_rows (split_by_month : bool) (rows : list (gmap string string))
    (st : gset string * gmap string (list transaction))
    : result (gset string * gmap string (list transaction)) :=
  match rows with
  | [] => Ok st
  | row :: rows' =>
      st' ← read_row split_by_month st row;
      read_rows split_by_month rows' st'
  end.

(** [read_csv_file], on the rows of the file: the transactions by month,
    a [defaultdict(list)], whose key is the empty string when the months
    are not split. *)
Definition read_csv_file (rows : list (gmap string string))
    (split_by_month : bool) : result (gmap string (list transaction)) :=
  st ← read_rows split_by_month rows (∅, ∅);
  Ok st.2.

(** [today_str] is the date of the run, [datetime.date.today()] as
    [YYYYMMDD]. *)
Definition make_header (today_str : string) : string :=
  "
<OFX>
   <SIGNONMSGSRSV1>
      <SONRS>                            <!-- Begin signon -->
         <STATUS>                        <!-- Begin status aggregate -->
            <CODE>0</CODE>               <!-- OK -->
            <SEVERITY>INFO</SEVERITY>
         </STATUS>
         <DTSERVER>"
  +:+ today_str
  +:+ "</DTSERVER>   <!-- Oct. 29, 1999, 10:10:03 am -->
         <LANGUAGE>ENG</LANGUAGE>        <!-- Language used in response -->
         <DTPROFUP>"
  +:+ today_str
  +:+ "</DTPROFUP>   <!-- Last update to profile-->
         <DTACCTUP>"
  +:+ today_str
  +:+ "</DTACCTUP>   <!-- Last account update -->
         <FI>                            <!-- ID of receiving institution -->
            <ORG>NCH</ORG>               <!-- Name of ID owner -->
            <FID>1001</FID>              <!-- Actual ID -->
         </FI>
      </SONRS>                           <!-- End of signon -->
   </SIGNONMSGSRSV1>
   <BANKMSGSRSV1>
      <STMTTRNRS>                        <!-- Begin response -->
         <TRNUID>1001</TRNUID>           <!-- Client ID sent in request -->
         <STATUS>                     <!-- Start status aggregate -->
            <CODE>0</CODE>            <!-- OK -->
            <SEVERITY>INFO</SEVERITY>
         </STATUS>".

Definition make_message_start (account : string) (mindate maxdate : Z)
    : string :=
  "
     <STMTRS>                         <!-- Begin statement response -->
        <CURDEF>EUR</CURDEF>
        <BANKACCTFROM>                <!-- Identify the account -->
           <BANKID>121099999</BANKID> <!-- Routing transit or other FI ID -->
           <ACCTID>"
  +:+ account
  +:+ "</ACCTID> <!-- Account number -->
           <ACCTTYPE>CHECKING</ACCTTYPE><!-- Account type -->
        </BANKACCTFROM>               <!-- End of account ID -->
        <BANKTRANLIST>                <!-- Begin list of statement trans. -->
           <DTSTART>"
  +:+ str mindate
  +:+ "</DTSTART>
           <DTEND>"
  +:+ str maxdate
  +:+ "</DTEND>".

Definition make_transaction (t : transaction) : string :=
  "
           <STMTTRN>
              <TRNTYPE>"
  +:+ trntype t
  +:+ "</TRNTYPE>
              <DTPOSTED>"
  +:+ dtposted t
  +:+ "</DTPOSTED>
              <TRNAMT>"
  +:+ trnamt t
  +:+ "</TRNAMT>
              <FITID>"
  +:+ fitid t
  +:+ "</FITID>
              <NAME>"
  +:+ name t
  +:+ "</NAME>
              <BANKACCTTO>
                 <BANKID></BANKID>
                 <ACCTID>"
  +:+ accountto t
  +:+ "</ACCTID>
                 <ACCTTYPE>CHECKING</ACCTTYPE>
              </BANKACCTTO>
              <MEMO>"
  +:+ memo t
  +:+ "</MEMO>
           </STMTTRN>".

Definition make_message_end : string :=
  "
        </BANKTRANLIST>                   <!-- End list of statement trans. -->
        <LEDGERBAL>                       <!-- Ledger balance aggregate -->
           <BALAMT>0</BALAMT>
           <DTASOF>199910291120</DTASOF><!-- Bal date: 10/29/99, 11:20 am -->
        </LEDGERBAL>                      <!-- End ledger balance -->
     </STMTRS>".

Definition make_footer : string :=
  "
      </STMTTRNRS>                        <!-- End of transaction -->
   </BANKMSGSRSV1>
</OFX>
".

Definition find_accounts (transactions : list transaction) : gset string :=
  list_to_set (account <$> transactions).

Definition find_date_range (transactions : list transaction)
    : result (Z * Z) :=
  dates ← map_result (λ t, int (dtposted t)) transactions;
  min_date ← min_of dates;
  max_date ← max_of dates;
  Ok (min_date, max_date).

(** [write_ofx_file]: the strings written to [ofxfile], in order.  Python
    leaves the order in which a set is iterated open: [set_iter] is that
    order. *)
Definition write_ofx_file (today_str : string)
    (set_iter : gset string → list string)
    (transactions : list transaction) : result (list string) :=
  let accounts := find_accounts transactions in
  '(mindate, maxdate) ← find_date_range transactions;
  Ok ([make_header today_str] ++
      mbind (λ a,
          [make_message_start a mindate maxdate] ++
          (make_transaction <$>
             filter (λ t, account t = a) transactions) ++
          [make_message_end])
        (set_iter accounts) ++
      [make_footer]).

(** ** The vocabulary of the specification *)

(** [s] with each of its characters [c] replaced by the string [f c]. *)
Fixpoint subst_chars (f : ascii → string) (s : string) : string :=
  match s with
  | EmptyString => EmptyString
  | String c s' => f c +:+ subst_chars f s'
  end.

(** [c] becomes [new], the other characters stay. *)
Definition char_to (c : ascii) (new : string) (x : ascii) : string :=
  if Ascii.eqb c x then new else String x EmptyString.

(** The characters of [s] that satisfy [p], in order. *)
Fixpoint keep (p : ascii → bool) (s : string) : string :=
  match s with
  | EmptyString => EmptyString
  | String c s' => if p c then String c (keep p s') else keep p s'
  end.

Definition digits_of (s : string) : string := keep isdigit s.

Definition without (c : ascii) (s : string) : string :=
  keep (λ x, negb (Ascii.eqb c x)) s.

(** [c] occurs in [s]. *)
Fixpoint occurs (c : ascii) (s : string) : bool :=
  match s with
  | EmptyString => false
  | String x s' => Ascii.eqb c x || occurs c s'
  end.

(** Every character of [s] satisfies [p]. *)
Fixpoint all_chars (p : ascii → bool) (s : string) : bool :=
  match s with
  | EmptyString => true
  | String c s' => p c && all_chars p s'
  end.

(** "Collapse any run of two or more spaces into one": a space that is
    followed by a space is dropped. *)
Fixpoint collapse_spaces (s : string) : string :=
  match s with
  | EmptyString => EmptyString
  | String c s' =>
      if Ascii.eqb " " c && startswith " " s' then collapse_spaces s'
      else String c (collapse_spaces s')
  end.

(** [t] neither begins nor ends with whitespace. *)
Definition no_space_at_ends (t : string) : Prop :=
  (∀ c t', t = String c t' → isspace c = false) ∧
  (∀ t' c, t = t' +:+ String c "" → isspace c = false).

(** [t] is [s] with its leading and trailing whitespace trimmed. *)
Definition trimmed (s t : string) : Prop :=
  ∃ l r, s = l +:+ t +:+ r ∧
    all_chars isspace l = true ∧ all_chars isspace r = true ∧
    no_space_at_ends t.

(** The escaping of the three characters, one after the other. *)
Definition escape (s : string) : string :=
  subst_chars (char_to "<" "&lt;")
    (subst_chars (char_to ">" "&gt;")
       (subst_chars (char_to "&" "&amp;") s)).

(** The base fingerprint of a transaction: counter-account, posted date,
    extracted time, and the amount without its ['-'] and ['.']. *)
Definition fingerprint (accountto dtposted time trnamt : string) : string :=
  accountto +:+ dtposted +:+ time +:+ without "." (without "-" trnamt).

(** [uid] is the ID the specification assigns to a transaction with base
    fingerprint [base] when the IDs of [used] are taken: [base] itself when
    it is free, and otherwise [base] with the first of the suffixes 1, 2, 3,
    ... that gives a free string. *)
Definition assigned_id (base : string) (used : gset string) (uid : string)
    : Prop :=
  ((base ∉ used) ∧ uid = base) ∨
  (base ∈ used ∧
   ∃ k : Z, (1 ≤ k)%Z ∧ uid = base +:+ str k ∧ (uid ∉ used) ∧
     ∀ j : Z, (1 ≤ j < k)%Z → base +:+ str j ∈ used).

(** The transactions of a run have pairwise distinct IDs: two places of
    the result that hold the same ID are the same place. *)
Definition distinct_ids (transactions : gmap string (list transaction))
    : Prop :=
  ∀ m1 m2 l1 l2 (i1 i2 : nat) t1 t2,
    transactions !! m1 = Some l1 → transactions !! m2 = Some l2 →
    l1 !! i1 = Some t1 → l2 !! i2 = Some t2 →
    fitid t1 = fitid t2 → m1 = m2 ∧ i1 = i2.

(** "8-digit strings": the form [YYYYMMDD] of a posted date. *)
Definition eight_digits (s : string) : Prop :=
  String.length s = 8 ∧ all_chars isdigit s = true.

(** The statement block of account [a]: its opening with the period, its
    transactions among [transactions], in their order, and its closing. *)
Definition statement_block (transactions : list transaction)
    (mindate maxdate : Z) (a : string) : list string :=
  [make_message_start a mindate maxdate] ++
  (make_transaction <$> filter (λ t, account t = a) transactions) ++
  [make_message_end].

(** Two digits. *)
Definition two_digits (s : string) : Prop :=
  ∃ a b, s = String a (String b "") ∧ isdigit a = true ∧ isdigit b = true.

(** [w] is a date and a time, [DD-MM-] then [century] and [YY], a space and
    [HH:MM], with the hour [hh] and the minute [mm]. *)
Definition date_time_text (century w hh mm : string) : Prop :=
  ∃ dd mo yy,
    two_digits dd ∧ two_digits mo ∧ two_digits yy ∧
    two_digits hh ∧ two_digits mm ∧
    w = dd +:+ "-" +:+ mo +:+ "-" +:+ century +:+ yy +:+ " " +:+
        hh +:+ ":" +:+ mm.

(** [s] begins with a date and a time whose year has two digits, or four
    digits of which the first two are [20]. *)
Definition starts_date_time (s hh mm : string) : Prop :=
  ∃ w rest, s = w +:+ rest ∧
    (date_time_text "" w hh mm ∨ date_time_text "20" w hh mm).

(** The first date and time of [memo] has the hour [hh] and the minute
    [mm]. *)
Definition first_date_time (memo hh mm : string) : Prop :=
  ∃ pre s, memo = pre +:+ s ∧ starts_date_time s hh mm ∧
    ∀ pre' s' hh' mm', memo = pre' +:+ s' →
      String.length pre' < String.length pre → ¬ starts_date_time s' hh' mm'.

(** There is no date and time in [memo]. *)
Definition no_date_time (memo : string) : Prop :=
  ∀ pre s hh mm, memo = pre +:+ s → ¬ starts_date_time s hh mm.

(** ** Auxiliary definitions for the proofs *)

(** [s] after its leading characters of class [a]. *)
Fixpoint skip (a : cclass) (s : string) : string :=
  match s with
  | EmptyString => EmptyString
  | String c s' => if accepts a c then skip a s' else s
  end.

(** The leading characters of class [a] of [s]. *)
Fixpoint run (a : cclass) (s : string) : string :=
  match s with
  | EmptyString => EmptyString
  | String c s' => if accepts a c then String c (run a s') else EmptyString
  end.

(** The strings the loop of [make_unique_id] tries, in order: [base], then
    [base] with the suffixes 1, 2, 3, ... *)
Definition candidate (base : string) (k : nat) : string :=
  match k with
  | O => base
  | S _ => base +:+ str (Z.of_nat k)
  end.

(** The IDs of the transactions read so far are in the set of used IDs. *)
Definition ids_recorded (st : gset string * gmap string (list transaction))
    : Prop :=
  ∀ m l (i : nat) t, st.2 !! m = Some l → l !! i = Some t → fitid t ∈ st.1.

(** The key under which [read_csv_file] files a transaction. *)
Definition month_of (split_by_month : bool) (t : transaction) : string :=
  if split_by_month then substring 0 6 (dtposted t) else "".

(** No space of [s] is followed by a space. *)
Fixpoint no_double_space (s : string) : bool :=
  match s with
  | EmptyString => true
  | String c s' =>
      negb (Ascii.eqb " " c && startswith " " s') && no_double_space s'
  end.

(** The number of occurrences of [c] in [s]. *)
Fixpoint count (c : ascii) (s : string) : nat :=
  match s with
  | EmptyString => 0
  | String x s' => (if Ascii.eqb c x then 1 else 0) + count c s'
  end.

(** The number of characters of [s] that [fix_text] escapes. *)
Definition specials (s : string) : nat :=
  count "&" s + count ">" s + count "<" s.

(** The escaping in one pass: what each character becomes. *)
Definition entity (c : ascii) : string :=
  if Ascii.eqb "&" c then "&amp;"
  else if Ascii.eqb ">" c then "&gt;"
  else if Ascii.eqb "<" c then "&lt;"
  else String c EmptyString.

(** A run of [n] spaces. *)
Fixpoint blanks (n : nat) : string :=
  match n with
  | O => EmptyString
  | S k => String " " (blanks k)
  end.

(** ** Examples *)

(** A row of an export of the bank. *)
Definition example_row (rekening datum code af_bij bedrag notes : string)
    : gmap string string :=
  {[ "Datum" := datum; "Naam / Omschrijving" := "ALBERT  HEIJN <1234>";
     "Rekening" := rekening; "Tegenrekening" := "NL20INGB0001234567";
     "Code" := code; "Af Bij" := af_bij; "Bedrag (EUR)" := bedrag;
     "MutatieSoort" := "Betaalautomaat"; "Mededelingen" := notes ]}.

(** Three payments of the same amount at the same terminal in the same
    minute. *)
Definition example_rows : list (gmap string string) :=
  let row :=
    example_row "NL91 INGB 0002 4455 88" "20170101" "BA" "Af" "5,00"
      "Pasvolgnr:001 05-03-17  14:22" in
  [row; row; row].

(** A group of three transactions of two accounts. *)
Definition example_group : list transaction :=
  [ Transaction "NL91INGB0002445588" "CREDIT" "20170102" "10.00" "A1" "" "" "";
    Transaction "NL18INGB0003335577" "POS" "20170215" "-7.50" "B1" "" "" "";
    Transaction "NL91INGB0002445588" "DEBIT" "20170101" "-5.00" "A2" "" "" "" ].

(** ** More vocabulary: reading and grouping *)

(** The columns [read_csv_file] reads in a row, in the order in which it
    reads them. *)
Definition columns : list string :=
  [ "Rekening"; "Code"; "Af Bij"; "Datum"; "Bedrag (EUR)";
    "Naam / Omschrijving"; "Tegenrekening"; "Mededelingen" ].

(** The transactions of [ts] that [read_csv_file] files under [m], in their
    order; a month without transactions has no key. *)
Definition group_of (split_by_month : bool) (m : string)
    (ts : list transaction) : option (list transaction) :=
  match filter (λ t, month_of split_by_month t = m) ts with
  | [] => None
  | l => Some l
  end.

(** [sum(len(t) for t in transactions.values())] *)
Definition transaction_count (transactions : gmap string (list transaction))
    : nat :=
  sum_list (length <$> (map_to_list transactions).*2).

(** ** The output file *)

(** [s.endswith(suffix)]: a tail of [s] is [suffix]. *)
Fixpoint endswith (suffix s : string) : bool :=
  String.eqb suffix s ||
  match s with
  | EmptyString => false
  | String _ s' => endswith suffix s'
  end.

(** [os.path.basename(p)] on POSIX, [p[p.rfind('/') + 1:]]: what follows
    the last ['/'] of [p], all of [p] when it has none. *)
Fixpoint basename (p : string) : string :=
  match p with
  | EmptyString => EmptyString
  | String c p' =>
      if occurs "/" p' then basename p'
      else if Ascii.eqb "/" c then p'
      else p
  end.

(** [os.path.join(a, b)] on POSIX: an absolute [b] discards [a]; otherwise
    [b] follows [a], after a ['/'] unless [a] is empty or ends with one. *)
Definition join (a b : string) : string :=
  if startswith "/" b then b
  else if String.eqb a "" || endswith "/" a then a +:+ b
  else a +:+ "/" +:+ b.

(** The arguments of the command line, as [parse_arguments] returns them;
    [outfile] is [None] when the option is not given. *)
Record arguments : Type := Arguments_of {
  csvfile : string;
  split : bool;
  outfile : option string;
  dir : string
}.

(** What a call of [open_output] leaves: the directory it has created with
    [os.makedirs], if any, the arguments ([args.dir] is assigned the
    directory that is created), and the path it returns. *)
Record output : Type := Output {
  made : option string;
  args_after : arguments;
  path : string
}.

(** The name of the output file in its directory: the name given with
    [-o], or else the base name of the input with [csv] and [CSV] replaced
    by [ofx] and [OFX], after the month and ['_'] when there is a month.
    The tests are those of Python: [None] and the empty string are false. *)
Definition output_filename (args : arguments) (month_prefix : string)
    : string :=
  let month_prefix :=
    if decide (month_prefix = "") then month_prefix
    else month_prefix +:+ "_" in
  match outfile args with
  | Some (String c name) => month_prefix +:+ String c name
  | _ =>
      let csvfile := basename (csvfile args) in
      month_prefix +:+ replace "CSV" "OFX" (replace "csv" "ofx" csvfile)
  end.

(** [open_output], for a file system that answers [os.path.exists] with
    [exists_] and in which [os.makedirs] succeeds on the paths of
    [makedirs_ok] (on the others it raises [OSError], and so does
    [open_output]: the result is [None]), with [getcwd] the current
    directory. *)
Definition open_output (exists_ makedirs_ok : string → bool)
    (getcwd : string) (args : arguments) (month_prefix : string)
    : option output :=
  let filename := output_filename args month_prefix in
  if negb (exists_ (dir args)) && negb (exists_ (join getcwd (dir args)))
  then
    let created := join getcwd (dir args) in
    if makedirs_ok created then
      Some {| made := Some created;
              args_after := {| csvfile := csvfile args; split := split args;
                               outfile := outfile args; dir := created |};
              path := join created filename |}
    else None
  else
    Some {| made := None; args_after := args;
            path := join (dir args) filename |}.

(** What [os.path.join] puts between [a] and a relative path. *)
Definition separator (a : string) : string :=
  if String.eqb a "" || endswith "/" a then "" else "/".

(** The arguments of [ing2ofx -s export/ing.csv]. *)
Definition example_arguments : arguments :=
  {| csvfile := "export/ing.csv"; split := true; outfile := None;
     dir := "ofx" |}.

(** A withdrawal: a row with a flagged code and the flag ['Af']. *)
Definition example_debit : gmap string string :=
  example_row "NL91 INGB 0002 4455 88" "20170101" "DV" "Af" "5,00" "".

(** ** The run *)

(** What a run does to the world outside, in order: [os.makedirs(path)],
    [open(path, 'w')], [ofxfile.write(data)] on the file opened at [path],
    and [print line]. *)
Inductive event : Type :=
  | Makedirs (path : string)
  | Open (path : string)
  | Write (path data : string)
  | Print (line : string).

(** The world outside.  [os.path.exists], [os.makedirs] and [open] are
    answered after the events so far: whether a path exists, and whether
    the directory or the file can be created ([OSError] and [IOError]
    otherwise).  The current directory and the date do not change during
    a run; [env_set_iter] is the order in which a set is iterated.
    Writing to a file that is open and printing succeed. *)
Record environment : Type := Environment {
  env_exists : list event → string → bool;
  env_makedirs : list event → string → bool;
  env_open : list event → string → bool;
  env_getcwd : string;
  env_today : string;
  env_set_iter : gset string → list string
}.

(** What ends a run early. *)
Inductive error : Type :=
  | Exception (e : exn)      (* raised by the functions of the script *)
  | OSError (path : string)  (* raised by [os.makedirs(path)] *)
  | IOError (path : string). (* raised by [open(path, 'w')] *)

(** [sorted(l)] for strings: Python 2 compares byte strings byte by
    byte. *)
Definition sorted (l : list string) : list string := merge_sort String.le l.

(** [sep.join(l)] *)
Fixpoint str_join (sep : string) (l : list string) : string :=
  match l with
  | [] => EmptyString
  | s :: l' =>
      match l' with
      | [] => s
      | _ :: _ => s +:+ sep +:+ str_join sep l'
      end
  end.

(** The loop of [main] over the months: its state is the arguments
    ([open_output] assigns to [args.dir]), the list [output_files], and the
    events so far.  An early end gives the events until then and the
    error. *)
Fixpoint write_months (env : environment)
    (transactions : gmap string (list transaction)) (months : list string)
    (args : arguments) (output_files : list string) (log : list event)
    : list event * error + arguments * list string * list event :=
  match months with
  | [] => inr (args, output_files, log)
  | month :: months' =>
      match open_output (env_exists env log) (env_makedirs env log)
              (env_getcwd env) args month with
      | None => inl (log, OSError (join (env_getcwd env) (dir args)))
      | Some o =>
          let log :=
            log ++ match made o with
                   | Some created => [Makedirs created]
                   | None => []
                   end in
          let output_file := path o in
          let output_files := output_files ++ [output_file] in
          if env_open env log output_file then
            let log := log ++ [Open output_file] in
            match write_ofx_file (env_today env) (env_set_iter env)
                    (default [] (transactions !! month)) with
            | Raise e => inl (log, Exception e)
            | Ok written =>
                write_months env transactions months' (args_after o)
                  output_files (log ++ (Write output_file <$> written))
            end
          else inl (log, IOError output_file)
      end
  end.

(** [main], for the arguments [parse_arguments] returns and the rows of
    the input: the events of the run, and the error that ends it if there
    is one. *)
Definition main (env : environment) (rows : list (gmap string string))
    (args : arguments) : list event * option error :=
  match read_csv_file rows (split args) with
  | Raise e => ([], Some (Exception e))
  | Ok transactions =>
      match write_months env transactions
              (sorted (map_to_list transactions).*1) args [] [] with
      | inl (log, e) => (log, Some e)
      | inr (_, output_files, log) =>
          (log ++
           [ Print ("Transactions: " +:+
                    str (Z.of_nat (transaction_count transactions)));
             Print ("Input:        " +:+ csvfile args);
             Print ("Output(s):    " +:+ str_join "," output_files) ],
           None)
      end
  end.

(** The files that are opened, in order. *)
Definition opened (log : list event) : list string :=
  log ≫= λ e, match e with Open path => [path] | _ => [] end.

(** A world in which a directory exists once it is created, and every
    directory and file can be created. *)
Definition example_environment : environment :=
  {| env_exists := λ log p,
       existsb (λ e, match e with
                     | Makedirs created => String.eqb created p
                     | _ => false
                     end) log;
     env_makedirs := λ _ _, true;
     env_open := λ _ _, true;
     env_getcwd := "/home";
     env_today := "20170301";
     env_set_iter := elements |}.


(** A world that keeps what exists: a path that exists still exists after
    more events, and a directory exists once it is created. *)
Definition keeps_directories (env : environment) : Prop :=
  (∀ log events p,
     env_exists env log p = true → env_exists env (log ++ events) p = true) ∧
  (∀ log events p,
     env_exists env (log ++ Makedirs p :: events) p = true).

(** Two payments, at the end of January and at the start of February. *)
Definition example_two_months : list (gmap string string) :=
  [ example_row "NL91 INGB 0002 4455 88" "20170131" "BA" "Af" "5,00" "";
    example_row "NL91 INGB 0002 4455 88" "20170201" "GT" "Bij" "7,50" "" ].

(** ** The statement in the words of the specification *)

(** An element of the markup: [content] between the tags of [tag]. *)
Definition tagged (tag content : string) : string :=
  "<" +:+ tag +:+ ">" +:+ content +:+ "</" +:+ tag +:+ ">".

(** The texts of [parts] stand in [s] one after the other, in this
    order. *)
Fixpoint in_order (parts : list string) (s : string) : Prop :=
  match parts with
  | [] => True
  | p :: parts' => ∃ pre post, s = pre +:+ p +:+ post ∧ in_order parts' post
  end.

(** The opening of the statement block of the account [a], for the period
    from [start_date] to [end_date]: the statement begins, the account is
    named, and the list of its transactions begins with the period. *)
Definition opens_statement (a start_date end_date s : string) : Prop :=
  in_order [ "<STMTRS>"; tagged "ACCTID" a; "<BANKTRANLIST>";
             tagged "DTSTART" start_date; tagged "DTEND" end_date ] s.

(** The text of one transaction: its type, posted date, amount, ID and
    name, the counter-account and the memo, in the order of the markup. *)
Definition renders_transaction (t : transaction) (s : string) : Prop :=
  in_order [ "<STMTTRN>"; tagged "TRNTYPE" (trntype t);
             tagged "DTPOSTED" (dtposted t); tagged "TRNAMT" (trnamt t);
             tagged "FITID" (fitid t); tagged "NAME" (name t);
             "<BANKACCTTO>"; tagged "ACCTID" (accountto t); "</BANKACCTTO>";
             tagged "MEMO" (memo t); "</STMTTRN>" ] s.

(** The closing of a statement block: the list of transactions ends, and
    the statement ends. *)
Definition closes_statement (s : string) : Prop :=
  in_order [ "</BANKTRANLIST>"; "</STMTRS>" ] s.

(** [block] is the statement block of the account [a] of a group: its
    opening with the period, then the texts of exactly the transactions of
    the group that have this account, in their order in the group, then its
    closing. *)
Definition block_of (transactions : list transaction)
    (start_date end_date a : string) (block : list string) : Prop :=
  ∃ opening rendered closing,
    block = opening :: rendered ++ [closing] ∧
    opens_statement a start_date end_date opening ∧
    Forall2 renders_transaction
      (filter (λ t, account t = a) transactions) rendered ∧
    closes_statement closing.

(** The number that a string of digits denotes. *)
Fixpoint decimal (s : string) : Z :=
  match s with
  | EmptyString => 0
  | String c s' =>
      (digit_value c * 10 ^ Z.of_nat (String.length s') + decimal s')%Z
  end.

(** [s] without its first [n] characters. *)
Fixpoint drop_chars (n : nat) (s : string) : string :=
  match n, s with
  | S n', String _ s' => drop_chars n' s'
  | _, _ => s
  end.

(** The first occurrence of [p] in [s]: what stands before it and what
    stands after it. *)
Fixpoint split_at (p s : string) : option (string * string) :=
  if startswith p s then Some (EmptyString, drop_chars (String.length p) s)
  else
    match s with
    | EmptyString => None
    | String c s' =>
        match split_at p s' with
        | Some (pre, post) => Some (String c pre, post)
        | None => None
        end
    end.

(** [p] occurs in [s]. *)
Definition contains (p s : string) : bool :=
  match split_at p s with
  | Some _ => true
  | None => false
  end.

(** A group of two transactions, one of them posted in the year 0. *)
Definition example_year_0 : list transaction :=
  [ Transaction "NL91INGB0002445588" "CREDIT" "00000101" "10.00" "A1" "" "" "";
    Transaction "NL91INGB0002445588" "DEBIT" "20170101" "-5.00" "A2" "" "" "" ].

(** ** The rows as [csv.DictReader] gives them

    A row of [csv.DictReader] has the fields that the first line of the
    file names.  The value of a field is a string, or [None] when the line
    is too short to have the field.  (The fields that a line has too many
    are kept under the key [None], which the script does not read.)  The
    rows are those of a file that the reader reads to its end: a file that
    cannot be opened or parsed is outside the model.  The functions of
    this module are the functions of the script on such rows: an argument
    that can be [None] is an [option string]. *)
Module Raw.

(** [re.sub(pattern, repl, s)] raises [TypeError] when [s] is [None]. *)
Definition re_sub (r : regex) (repl : string) (s : option string)
    : result string :=
  match s with
  | Some s => Ok (re_sub r repl s)
  | None => Raise TypeError
  end.

(** [None] is not in the set of the flagged codes and not in the table of
    the codes; [af_bij_map[None]] is a [KeyError]. *)
Definition ing_code_to_trntype (ing_code af_bij : option string)
    : result string :=
  match ing_code with
  | Some ing_code =>
      if decide (ing_code ∈ af_bij_codes)
      then match af_bij with
           | Some af_bij => getitem af_bij_map af_bij
           | None => Raise KeyErrorNone
           end
      else Ok (default "OTHER" (trn_codes !! ing_code))
  | None => Ok "OTHER"
  end.

(** [amount.replace] is an [AttributeError] when [amount] is [None];
    [None == 'Af'] is false. *)
Definition get_transaction_amount (amount af_bij : option string)
    : result string :=
  match amount with
  | Some amount =>
      let amount := replace "," "." amount in
      let sign := if decide (af_bij = Some "Af") then "-" else "" in
      Ok (sign +:+ amount)
  | None => Raise AttributeError
  end.

Definition fix_text (ing_text : option string) : result string :=
  text ← re_sub two_or_more_spaces " " ing_text;
  let text := strip text in
  Ok (replace "<" "&lt;" (replace ">" "&gt;" (replace "&" "&amp;" text))).

(** [accountto + dtposted] is a [TypeError] when one of them is [None]. *)
Definition make_unique_id (accountto dtposted : option string)
    (time trnamt : string) (idslist : gset string) : result string :=
  match accountto, dtposted with
  | Some accountto, Some dtposted =>
      make_unique_id accountto dtposted time trnamt idslist
  | _, _ => Raise TypeError
  end.

(** The first part of the body of the loop of [read_csv_file].  When
    [make_unique_id] has returned, the counter-account and the date are
    strings: the last case of the last [match] is never reached. *)
Definition row_transaction (row : gmap string (option string))
    (idslist : gset string) : result transaction :=
  rekening ← getitem row "Rekening";
  account ← re_sub spaces "" rekening;
  code ← getitem row "Code";
  af_bij ← getitem row "Af Bij";
  trntype ← ing_code_to_trntype code af_bij;
  dtposted ← getitem row "Datum";
  bedrag ← getitem row "Bedrag (EUR)";
  trnamt ← get_transaction_amount bedrag af_bij;
  naam ← getitem row "Naam / Omschrijving";
  name ← fix_text naam;
  accountto ← getitem row "Tegenrekening";
  mededelingen ← getitem row "Mededelingen";
  memo ← fix_text mededelingen;
  let time := extract_time memo in
  unique_id ← make_unique_id accountto dtposted time trnamt idslist;
  match accountto, dtposted with
  | Some accountto, Some dtposted =>
      Ok {| account := account; trntype := trntype; dtposted := dtposted;
            trnamt := trnamt; fitid := unique_id; name := name;
            accountto := accountto; memo := memo |}
  | _, _ => Raise TypeError
  end.

Definition read_row (split_by_month : bool)
    (st : gset string * gmap string (list transaction))
    (row : gmap string (option string))
    : result (gset string * gmap string (list transaction)) :=
  t ← row_transaction row st.1;
  let idslist := {[ fitid t ]} ∪ st.1 in
  let month := if split_by_month then substring 0 6 (dtposted t) else "" in
  Ok (idslist, append_to month t st.2).

Fixpoint read_rows (split_by_month : bool)
    (rows : list (gmap string (option string)))
    (st : gset string * gmap string (list transaction))
    : result (gset string * gmap string (list transaction)) :=
  match rows with
  | [] => Ok st
  | row :: rows' =>
      st' ← read_row split_by_month st row;
      read_rows split_by_month rows' st'
  end.

Definition read_csv_file (rows : list (gmap string (option string)))
    (split_by_month : bool) : result (gmap string (list transaction)) :=
  st ← read_rows split_by_month rows (∅, ∅);
  Ok st.2.

Definition main (env : environment)
    (rows : list (gmap string (option string))) (args : arguments)
    : list event * option error :=
  match read_csv_file rows (split args) with
  | Raise e => ([], Some (Exception e))
  | Ok transactions =>
      match write_months env transactions
              (sorted (map_to_list transactions).*1) args [] [] with
      | inl (log, e) => (log, Some e)
      | inr (_, output_files, log) =>
          (log ++
           [ Print ("Transactions: " +:+
                    str (Z.of_nat (transaction_count transactions)));
             Print ("Input:        " +:+ csvfile args);
             Print ("Output(s):    " +:+ str_join "," output_files) ],
           None)
      end
  end.

(** The columns whose field the script uses as a string. *)
Definition text_columns : list string :=
  [ "Rekening"; "Datum"; "Bedrag (EUR)"; "Naam / Omschrijving";
    "Tegenrekening"; "Mededelingen" ].

(** A row [read_csv_file] accepts: it has the eight columns, the six
    fields that are used as strings are strings, and when its code is one
    of DV, OV and VZ its flag is ['Af'] or ['Bij']. *)
Definition row_ok (row : gmap string (option string)) : Prop :=
  (∀ k, k ∈ columns → is_Some (row !! k)) ∧
  (∀ k, k ∈ text_columns → row !! k ≠ Some None) ∧
  (∀ code, row !! "Code" = Some (Some code) → code ∈ ["DV"; "OV"; "VZ"] →
     row !! "Af Bij" = Some (Some "Af") ∨ row !! "Af Bij" = Some (Some "Bij")).

(** An exception of reading the rows. *)
Definition reading_error (e : exn) : Prop :=
  (∃ k, e = KeyError k) ∨ e = KeyErrorNone ∨ e = TypeError ∨
  e = AttributeError.

(** The rows of a file whose lines all have their fields: no field is
    [None]. *)
Definition of_strings (rows : list (gmap string string))
    : list (gmap string (option string)) :=
  (λ row : gmap string string, Some <$> row) <$> rows.

End Raw.

(** A row whose line ends before the notes. *)
Definition example_short_row : gmap string (option string) :=
  <[ "Mededelingen" := None ]> (Some <$> example_debit).

(** ** Strings *)

(** The tests on characters are kept folded by [simpl]. *)
#[local] Arguments Ascii.eqb : simpl never.
#[local] Arguments isspace : simpl never.
#[local] Arguments isdigit : simpl never.

Lemma sapp_cons (c : ascii) (s t : string) :
  String c s +:+ t = String c (s +:+ t).
Proof. reflexivity. Qed.

Lemma sapp_nil (t : string) : "" +:+ t = t.
Proof. reflexivity. Qed.

(** Simplification that also computes [+:+] on the constructors. *)
Ltac ssimpl := repeat (progress (rewrite ?sapp_cons, ?sapp_nil; simpl)).
Ltac ssimpl_in H :=
  repeat (progress (rewrite ?sapp_cons, ?sapp_nil in H; simpl in H)).

Lemma sapp_empty_r (s : string) : s +:+ "" = s.
Proof. induction s; ssimpl; congruence. Qed.

Lemma sapp_assoc (s t u : string) : (s +:+ t) +:+ u = s +:+ t +:+ u.
Proof. induction s; ssimpl; congruence. Qed.

Lemma length_sapp (s t : string) :
  String.length (s +:+ t) = String.length s + String.length t.
Proof. induction s; ssimpl; congruence. Qed.

Lemma eqb_dec (a b : ascii) : Ascii.eqb a b = bool_decide (a = b).
Proof.
  destruct (Ascii.eqb_spec a b);
    [by rewrite bool_decide_true|by rewrite bool_decide_false].
Qed.

Lemma replace_char (c : ascii) (new s : string) :
  replace (String c "") new s = subst_chars (char_to c new) s.
Proof.
  unfold replace. induction s as [|x s IH]; [done|].
  cbn [replace_from startswith subst_chars String.length]. unfold char_to at 1.
  rewrite andb_true_r. destruct (Ascii.eqb c x); ssimpl; by rewrite IH.
Qed.

Lemma subst_chars_app (f : ascii → string) (s t : string) :
  subst_chars f (s +:+ t) = subst_chars f s +:+ subst_chars f t.
Proof. induction s; ssimpl; [done|]. by rewrite IHs, sapp_assoc. Qed.

Lemma keep_app (p : ascii → bool) (s t : string) :
  keep p (s +:+ t) = keep p s +:+ keep p t.
Proof. induction s; ssimpl; [done|]. destruct (p a); ssimpl; congruence. Qed.

(** Dropping a character is replacing it by nothing. *)
Lemma subst_chars_without (c : ascii) (s : string) :
  subst_chars (char_to c "") s = without c s.
Proof.
  unfold without. induction s as [|x s IH]; [done|].
  simpl. unfold char_to at 1. destruct (Ascii.eqb c x); ssimpl; congruence.
Qed.

(** ** The amount *)

Lemma digits_of_comma_to_point (s : string) :
  digits_of (subst_chars (char_to "," ".") s) = digits_of s.
Proof.
  unfold digits_of. induction s as [|x s IH]; [done|].
  simpl. unfold char_to at 1. destruct (Ascii.eqb_spec "," x) as [<-|Hx].
  - ssimpl. exact IH.
  - ssimpl. destruct (isdigit x); simpl; congruence.
Qed.

(** C4, as the code has it.  The amount is the raw amount with every comma
    replaced by a point, after a ['-'] exactly when the flag is ['Af']; its
    digits are those of the raw amount, in order.  When the raw amount does
    not itself begin with ['-'], the result begins with ['-'] if and only
    if the flag is ['Af']. *)
Theorem amount_sign_and_digits (amount af_bij : string) :
  get_transaction_amount amount af_bij =
    (if decide (af_bij = "Af") then "-" else "") +:+
    subst_chars (char_to "," ".") amount
  ∧ digits_of (get_transaction_amount amount af_bij) = digits_of amount
  ∧ (startswith "-" amount = false →
     (startswith "-" (get_transaction_amount amount af_bij) = true ↔
      af_bij = "Af")).
Proof.
  unfold get_transaction_amount. rewrite replace_char.
  split; [done|]. split.
  - unfold digits_of at 1. rewrite keep_app.
    change (keep isdigit ?s) with (digits_of s).
    rewrite digits_of_comma_to_point.
    by destruct (decide (af_bij = "Af")).
  - intros Hraw. destruct (decide (af_bij = "Af")) as [->|Hne]; [done|].
    split; [|done]. intros H. exfalso.
    destruct amount as [|x amount]; [done|].
    ssimpl_in H. ssimpl_in Hraw. unfold char_to in H.
    rewrite ?andb_true_r in Hraw.
    destruct (Ascii.eqb_spec "," x) as [<-|Hx]; [done|].
    ssimpl_in H. rewrite ?andb_true_r in H. congruence.
Qed.

(** C4 on a debit of 5,00. *)
Lemma amount_sign_and_digits_witness :
  get_transaction_amount "5,00" "Af" = "-5.00" ∧
  digits_of (get_transaction_amount "5,00" "Af") = "500" ∧
  (startswith "-" (get_transaction_amount "5,00" "Af") = true ↔ "Af" = "Af").
Proof.
  destruct (amount_sign_and_digits "5,00" "Af") as (Hamount & Hdigits & Hsign).
  split; [exact Hamount|]. split; [exact Hdigits|]. exact (Hsign eq_refl).
Defined.

(** C4, an input on which the statement of the specification fails: a raw
    amount that begins with ['-'] gives, with the credit flag, a result that
    begins with ['-']. *)
Lemma amount_sign_of_signed_raw_amount :
  get_transaction_amount "-1,00" "Bij" = "-1.00" ∧
  startswith "-" (get_transaction_amount "-1,00" "Bij") = true ∧
  "Bij" ≠ "Af".
Proof. by repeat split. Qed.

(** ** Runs of one class of characters *)

(** [lia] after the equations between booleans are set aside. *)
Ltac slia :=
  repeat match goal with
         | H : @eq bool _ _ |- _ => clear H
         end; lia.

Lemma run_skip (a : cclass) (s : string) : run a s +:+ skip a s = s.
Proof.
  induction s as [|c s IH]; [done|]. simpl.
  destruct (accepts a c); ssimpl; congruence.
Qed.

Lemma length_run_skip (a : cclass) (s : string) :
  String.length (run a s) + String.length (skip a s) = String.length s.
Proof. rewrite <-(run_skip a s) at 3. by rewrite length_sapp. Qed.

Lemma length_skip (a : cclass) (s : string) :
  String.length s - String.length (skip a s) = String.length (run a s).
Proof. pose proof (length_run_skip a s). lia. Qed.

(** The first way to match [a+] takes the whole run. *)
Lemma plus_matches_first (a : cclass) (c : ascii) (s : string) :
  accepts a c = true →
  ∃ others, plus_matches a (String c s) = skip a s :: others.
Proof.
  intros Hc. simpl. rewrite Hc. clear c Hc.
  induction s as [|c s [others IH]]; [by exists []|].
  simpl. destruct (accepts a c) eqn:Hc.
  - rewrite IH. by eexists.
  - by exists [].
Qed.

Lemma plus_matches_none (a : cclass) (c : ascii) (s : string) :
  accepts a c = false → plus_matches a (String c s) = [].
Proof. intros Hc. simpl. by rewrite Hc. Qed.

(** [re.sub] passes over the characters of a match. *)
Lemma re_sub_from_skip (r : regex) (repl u v : string) (b : bool) :
  u ≠ "" →
  re_sub_from r repl (u +:+ v) (String.length u) b =
  re_sub_from r repl v 0 true.
Proof.
  revert b. induction u as [|c u IH]; intros b Hu; [done|]. ssimpl.
  destruct u as [|c' u]; [done|]. by apply IH.
Qed.

Lemma plus_match_length (a : cclass) (c : ascii) (s : string) :
  String.length (String c s) - String.length (skip a s) =
  S (String.length (run a s)).
Proof. pose proof (length_run_skip a s). simpl. lia. Qed.

(** *** The pattern [' +'] *)

Lemma without_run (c : ascii) (s : string) :
  without c (skip (Lit c) s) = without c s.
Proof.
  unfold without. induction s as [|x s IH]; [done|].
  simpl. destruct (Ascii.eqb c x) eqn:E; simpl; rewrite ?E; simpl; congruence.
Qed.

Lemma re_sub_spaces_from (s : string) (k : nat) (b : bool) :
  k ≤ String.length (run (Lit " ") s) →
  re_sub_from spaces "" s k b = without " " s.
Proof.
  revert k b. induction s as [|c s IH]; intros k b Hk; [by destruct k|].
  destruct k as [|k].
  - cbn [re_sub_from]. unfold spaces at 1. cbn [matches].
    destruct (accepts (Lit " ") c) eqn:Hc.
    + destruct (plus_matches_first _ c s Hc) as [others ->].
      cbn [fmap list_fmap fst]. rewrite plus_match_length, sapp_nil.
      rewrite IH by done. unfold without. simpl in *. by rewrite Hc.
    + rewrite plus_matches_none by done. cbn [fmap list_fmap].
      rewrite IH by slia. unfold without. simpl in *. by rewrite Hc.
  - cbn [run] in Hk.
    destruct (accepts (Lit " ") c) eqn:Hc; [|simpl in Hk; slia].
    cbn [re_sub_from]. rewrite IH by (simpl in Hk; slia).
    unfold without. simpl in *. by rewrite Hc.
Qed.

(** [' +'] replaced by nothing removes every space. *)
Lemma re_sub_spaces (s : string) : re_sub spaces "" s = without " " s.
Proof. apply re_sub_spaces_from. lia. Qed.

(** *** The pattern ['  +'] *)

Lemma collapse_run (s : string) :
  collapse_spaces (String " " s) =
  String " " (collapse_spaces (skip (Lit " ") s)).
Proof.
  induction s as [|c s IH]; [done|].
  cbn [skip accepts]. destruct (Ascii.eqb " " c) eqn:Hc.
  - apply Ascii.eqb_eq in Hc as <-. rewrite <-IH.
    change (collapse_spaces (String " " (String " " s)))
      with (collapse_spaces (String " " s)). done.
  - cbn [collapse_spaces startswith]. rewrite Hc. done.
Qed.

Lemma two_or_more_first (s : string) :
  ∃ others,
    matches two_or_more_spaces (String " " (String " " s)) [] =
    (skip (Lit " ") s, []) :: others.
Proof.
  unfold two_or_more_spaces. cbn [matches accepts].
  change (Ascii.eqb " " " ") with true. cbn [mbind list_bind fst snd].
  destruct (plus_matches_first (Lit " ") " " s eq_refl) as [others ->].
  cbn [fmap list_fmap]. rewrite app_nil_r. by eexists.
Qed.

Lemma two_or_more_none (c : ascii) (s : string) :
  Ascii.eqb " " c && startswith " " s = false →
  matches two_or_more_spaces (String c s) [] = [].
Proof.
  intros H. unfold two_or_more_spaces. cbn [matches accepts].
  destruct (Ascii.eqb " " c); [|done]. cbn [mbind list_bind fst snd].
  destruct s as [|x s]; [done|]. simpl in H. rewrite andb_true_r in H.
  rewrite plus_matches_none by done. done.
Qed.

Lemma re_sub_two_or_more_bounded (n : nat) (s : string) (b : bool) :
  String.length s ≤ n →
  re_sub_from two_or_more_spaces " " s 0 b = collapse_spaces s.
Proof.
  revert s b. induction n as [|n IH]; intros s b Hn.
  { destruct s; [done|simpl in Hn; lia]. }
  destruct s as [|c s]; [done|].
  cbn [re_sub_from collapse_spaces].
  destruct (Ascii.eqb " " c && startswith " " s) eqn:Hcs.
  - apply andb_true_iff in Hcs as [Hc Hs]. apply Ascii.eqb_eq in Hc as <-.
    destruct s as [|x s]; [done|]. simpl in Hs. rewrite andb_true_r in Hs.
    apply Ascii.eqb_eq in Hs as <-.
    destruct (two_or_more_first s) as [others ->]. cbn [fst].
    replace (String.length (String " " (String " " s)) -
             String.length (skip (Lit " ") s))
      with (S (String.length (String " " (run (Lit " ") s))))
      by (pose proof (length_run_skip (Lit " ") s); simpl; lia).
    rewrite collapse_run. change (" " +:+ ?t) with (String " " t). f_equal.
    rewrite <-(run_skip (Lit " ") s) at 1.
    rewrite <-sapp_cons, re_sub_from_skip by done. apply IH.
    simpl in Hn. pose proof (length_run_skip (Lit " ") s). lia.
  - rewrite two_or_more_none by done. f_equal. apply IH. simpl in Hn. lia.
Qed.

(** ['  +'] replaced by one space collapses the runs of spaces. *)
Lemma re_sub_two_or_more (s : string) :
  re_sub two_or_more_spaces " " s = collapse_spaces s.
Proof. by apply (re_sub_two_or_more_bounded (String.length s)). Qed.

(** ** The result monad *)

Lemma bind_Ok {A B} (m : result A) (k : A → result B) (b : B) :
  m ≫= k = Ok b ↔ ∃ a, m = Ok a ∧ k a = Ok b.
Proof.
  destruct m as [a|e]; simpl.
  - split; [by exists a|]. by intros (a' & [= <-] & H).
  - split; [done|]. by intros (a' & [=] & _).
Qed.

Lemma getitem_Ok {V} (d : gmap string V) (k : string) (v : V) :
  getitem d k = Ok v ↔ d !! k = Some v.
Proof. unfold getitem. destruct (d !! k); split; congruence. Qed.

(** ** The unique IDs *)

Lemma length_pretty_N_go (x : N) (s : string) :
  String.length s ≤ String.length (pretty_N_go x s).
Proof.
  revert s. induction (N.lt_wf_0 x) as [x _ IH]; intros s.
  destruct (decide (x = 0)%N) as [->|Hx]; [by rewrite pretty_N_go_0|].
  rewrite pretty_N_go_step by lia.
  etrans; [|apply IH; apply N.div_lt; lia]. simpl. lia.
Qed.

Lemma str_nonempty (k : Z) : str k ≠ "".
Proof.
  assert (∀ p : positive, pretty p ≠ "") as Hpos.
  { intros p Hp. unfold pretty, pretty_positive, pretty, pretty_N in Hp.
    rewrite decide_False in Hp by done.
    rewrite pretty_N_go_step in Hp by lia.
    pose proof (length_pretty_N_go ((N.pos p) `div` 10)%N
                  (String (pretty_N_char ((N.pos p) `mod` 10)%N) "")) as Hlen.
    rewrite Hp in Hlen. simpl in Hlen. lia. }
  unfold str, pretty, pretty_Z. destruct k as [|p|p]; [done|apply Hpos|done].
Qed.

Lemma sapp_nonempty_r (s t : string) : s +:+ t = s → t = "".
Proof.
  intros H. apply (String.app_inj s). by rewrite sapp_empty_r.
Qed.

#[local] Instance candidate_inj (base : string) : Inj (=) (=) (candidate base).
Proof.
  intros [|j] [|k] H; [done|..]; unfold candidate in H.
  - symmetry in H. apply sapp_nonempty_r in H. by apply str_nonempty in H.
  - apply sapp_nonempty_r in H. by apply str_nonempty in H.
  - apply (String.app_inj base), (inj pretty) in H. lia.
Qed.

(** Pigeonhole: the first [n] candidates are distinct, so they are not all
    among fewer than [n] used IDs. *)
Lemma candidates_bound (base : string) (ids : gset string) (n : nat) :
  (∀ j, j < n → candidate base j ∈ ids) → n ≤ size ids.
Proof.
  intros Hall.
  assert (candidate base <$> seq 0 n ⊆+ elements ids) as Hsub.
  { apply NoDup_submseteq.
    - apply (NoDup_fmap_2 _), NoDup_seq.
    - intros x (j & -> & Hj)%list_elem_of_fmap.
      apply elem_of_seq in Hj. apply elem_of_elements, Hall. lia. }
  apply submseteq_length in Hsub.
  by rewrite length_fmap, length_seq in Hsub.
Qed.

(** The loop returns, and returns the first candidate that is not used. *)
Lemma unique_id_loop_returns (steps : nat) (base : string)
    (ids : gset string) (n : nat) :
  (∀ j, j < n → candidate base j ∈ ids) →
  size ids < steps + n →
  ∃ k, n ≤ k ∧
    unique_id_loop steps base (Z.of_nat n) (candidate base n) ids =
      Ok (candidate base k) ∧
    (candidate base k ∉ ids) ∧ ∀ j, j < k → candidate base j ∈ ids.
Proof.
  revert n. induction steps as [|steps IH]; intros n Hall Hsize.
  { apply candidates_bound in Hall. lia. }
  cbn [unique_id_loop]. destruct (decide (candidate base n ∈ ids)) as [Hin|Hin].
  - destruct (IH (S n)) as (k & Hk & Hloop & Hout & Hless).
    { intros j Hj. destruct (decide (j = n)) as [->|]; [done|].
      apply Hall. lia. }
    { lia. }
    exists k. split; [lia|]. split; [|done].
    rewrite <-Hloop. cbn [candidate]. by rewrite Nat2Z.inj_succ, Z.add_1_r.
  - exists n. by repeat split.
Qed.

Lemma fingerprint_fitid (accountto dtposted time trnamt : string) :
  ((accountto +:+ dtposted) +:+ time)
    +:+ replace "." "" (replace "-" "" trnamt) =
  fingerprint accountto dtposted time trnamt.
Proof.
  unfold fingerprint.
  by rewrite !replace_char, !subst_chars_without, !sapp_assoc.
Qed.

(** [make_unique_id] returns the ID the specification assigns. *)
Lemma make_unique_id_assigned (accountto dtposted time trnamt : string)
    (idslist : gset string) :
  ∃ uid, make_unique_id accountto dtposted time trnamt idslist = Ok uid ∧
    assigned_id (fingerprint accountto dtposted time trnamt) idslist uid.
Proof.
  unfold make_unique_id. rewrite fingerprint_fitid.
  set (base := fingerprint accountto dtposted time trnamt).
  destruct (unique_id_loop_returns (S (size idslist)) base idslist 0)
    as (k & _ & Hloop & Hout & Hless); [lia|lia|].
  exists (candidate base k). split; [exact Hloop|].
  destruct k as [|k]; [by left|]. right. split; [by apply (Hless 0); lia|].
  exists (Z.of_nat (S k)). split; [lia|]. split; [done|]. split; [done|].
  intros j Hj. specialize (Hless (Z.to_nat j)).
  destruct (Z.to_nat j) as [|j'] eqn:Ej; [lia|].
  cbn [candidate] in Hless. rewrite <-Ej, Z2Nat.id in Hless by lia.
  apply Hless. lia.
Qed.

Lemma assigned_id_fresh (base : string) (used : gset string) (uid : string) :
  assigned_id base used uid → uid ∉ used.
Proof. intros [[? ->]|(_ & k & _ & _ & ? & _)]; done. Qed.

(** ** The loop over the rows *)

Lemma row_transaction_Ok (row : gmap string string) (ids : gset string)
    (t : transaction) :
  row_transaction row ids = Ok t →
  ∃ rekening code af_bij bedrag naam mededelingen,
    row !! "Rekening" = Some rekening ∧ row !! "Code" = Some code ∧
    row !! "Af Bij" = Some af_bij ∧ row !! "Datum" = Some (dtposted t) ∧
    row !! "Bedrag (EUR)" = Some bedrag ∧
    row !! "Naam / Omschrijving" = Some naam ∧
    row !! "Tegenrekening" = Some (accountto t) ∧
    row !! "Mededelingen" = Some mededelingen ∧
    account t = re_sub spaces "" rekening ∧
    ing_code_to_trntype code af_bij = Ok (trntype t) ∧
    trnamt t = get_transaction_amount bedrag af_bij ∧
    name t = fix_text naam ∧ memo t = fix_text mededelingen ∧
    make_unique_id (accountto t) (dtposted t) (extract_time (memo t))
      (trnamt t) ids = Ok (fitid t).
Proof.
  unfold row_transaction. intros H.
  apply bind_Ok in H as (rekening & H1%getitem_Ok & H).
  apply bind_Ok in H as (code & H2%getitem_Ok & H).
  apply bind_Ok in H as (af_bij & H3%getitem_Ok & H).
  apply bind_Ok in H as (trntype & H4 & H).
  apply bind_Ok in H as (dtposted & H5%getitem_Ok & H).
  apply bind_Ok in H as (bedrag & H6%getitem_Ok & H).
  apply bind_Ok in H as (naam & H7%getitem_Ok & H).
  apply bind_Ok in H as (accountto & H8%getitem_Ok & H).
  apply bind_Ok in H as (mededelingen & H9%getitem_Ok & H).
  apply bind_Ok in H as (unique_id & H10 & [= <-]).
  exists rekening, code, af_bij, bedrag, naam, mededelingen. by repeat split.
Qed.

Lemma read_row_Ok (split_by_month : bool)
    (st st' : gset string * gmap string (list transaction))
    (row : gmap string string) :
  read_row split_by_month st row = Ok st' ↔
  ∃ t, row_transaction row st.1 = Ok t ∧
    st' = ({[ fitid t ]} ∪ st.1, append_to (month_of split_by_month t) t st.2).
Proof.
  unfold read_row. rewrite bind_Ok. unfold month_of.
  split; intros (t & Ht & H); exists t; (split; [done|]); congruence.
Qed.

Lemma read_rows_app (split_by_month : bool)
    (rows1 rows2 : list (gmap string string))
    (st : gset string * gmap string (list transaction)) :
  read_rows split_by_month (rows1 ++ rows2) st =
  read_rows split_by_month rows1 st ≫= read_rows split_by_month rows2.
Proof.
  revert st. induction rows1 as [|row rows1 IH]; intros st; [done|].
  simpl. destruct (read_row split_by_month st row); simpl; [apply IH|done].
Qed.

(** A place of the transactions after [append_to] is a place of the
    transactions before, or the place of the new transaction. *)
Lemma append_to_lookup (month : string) (t : transaction)
    (txs : gmap string (list transaction)) m l (i : nat) t' :
  append_to month t txs !! m = Some l → l !! i = Some t' →
  (∃ l', txs !! m = Some l' ∧ l' !! i = Some t') ∨
  (m = month ∧ i = length (default [] (txs !! month)) ∧ t' = t).
Proof.
  unfold append_to. intros Hm Hi. destruct (decide (month = m)) as [->|Hne].
  - rewrite lookup_insert_eq in Hm. injection Hm as <-.
    apply lookup_app_Some in Hi as [Hi|[Hlen Hi]].
    + left. destruct (txs !! m) as [l'|]; [by exists l'|done].
    + right. apply list_lookup_singleton_Some in Hi as [Hi <-].
      split; [done|]. split; [lia|done].
  - rewrite lookup_insert_ne in Hm by done. left. by exists l.
Qed.

Lemma read_row_invariant (split_by_month : bool)
    (st st' : gset string * gmap string (list transaction))
    (row : gmap string string) :
  read_row split_by_month st row = Ok st' →
  ids_recorded st ∧ distinct_ids st.2 →
  ids_recorded st' ∧ distinct_ids st'.2.
Proof.
  intros (t & Ht & ->)%read_row_Ok [Hrec Hdist].
  apply row_transaction_Ok in Ht
    as (_&_&_&_&_&_&_&_&_&_&_&_&_&_&_&_&_&_&_& Hid).
  destruct (make_unique_id_assigned (accountto t) (dtposted t)
              (extract_time (memo t)) (trnamt t) st.1) as (uid & Huid & Hspec).
  rewrite Huid in Hid. injection Hid as ->.
  apply assigned_id_fresh in Hspec. clear Huid. split.
  - intros m l i t' Hm Hi. cbn [fst snd] in *.
    destruct (append_to_lookup _ _ _ _ _ _ _ Hm Hi)
      as [(l' & Hm' & Hi')|(_ & _ & ->)].
    + apply elem_of_union_r. by eapply Hrec.
    + apply elem_of_union_l. by apply elem_of_singleton.
  - intros m1 m2 l1 l2 i1 i2 t1 t2 Hm1 Hm2 Hi1 Hi2 Heq. cbn [fst snd] in *.
    destruct (append_to_lookup _ _ _ _ _ _ _ Hm1 Hi1)
      as [(l1' & Hm1' & Hi1')|(-> & -> & ->)];
    destruct (append_to_lookup _ _ _ _ _ _ _ Hm2 Hi2)
      as [(l2' & Hm2' & Hi2')|(-> & -> & ->)].
    + by eapply Hdist.
    + exfalso. apply Hspec. rewrite <-Heq. by eapply Hrec.
    + exfalso. apply Hspec. rewrite Heq. by eapply Hrec.
    + done.
Qed.

Lemma read_rows_invariant (split_by_month : bool)
    (rows : list (gmap string string))
    (st st' : gset string * gmap string (list transaction)) :
  read_rows split_by_month rows st = Ok st' →
  ids_recorded st ∧ distinct_ids st.2 →
  ids_recorded st' ∧ distinct_ids st'.2.
Proof.
  revert st. induction rows as [|row rows IH]; intros st H Hinv.
  { by injection H as <-. }
  simpl in H. apply bind_Ok in H as (st1 & Hrow & H).
  eapply IH; [exact H|]. by eapply read_row_invariant.
Qed.

Lemma initial_invariant : ids_recorded (∅, ∅) ∧ distinct_ids (∅ : gmap _ _).
Proof.
  split.
  - intros m l i t Hm. simpl in Hm. by rewrite lookup_empty in Hm.
  - intros m1 m2 l1 l2 i1 i2 t1 t2 Hm. by rewrite lookup_empty in Hm.
Qed.

(** C1. [make_unique_id] always returns, and returns the base fingerprint
    when it is not used yet, and otherwise the base fingerprint with the
    first of the suffixes 1, 2, 3, ... that gives a string not used yet.  In
    a run of [read_csv_file] that ends well, the IDs of the transactions are
    pairwise distinct; the ID of every row is the one so assigned for the
    IDs used by the rows before it, and it is in the set of used IDs when
    the next row is read. *)
Theorem unique_ids :
  (∀ accountto dtposted time trnamt idslist,
     ∃ uid, make_unique_id accountto dtposted time trnamt idslist = Ok uid ∧
       assigned_id (fingerprint accountto dtposted time trnamt) idslist uid)
  ∧
  (∀ rows split_by_month transactions,
     read_csv_file rows split_by_month = Ok transactions →
     distinct_ids transactions ∧
     ∀ rows1 row rows2, rows = rows1 ++ row :: rows2 →
       ∃ idslist txs t,
         read_rows split_by_month rows1 (∅, ∅) = Ok (idslist, txs) ∧
         row_transaction row idslist = Ok t ∧
         assigned_id
           (fingerprint (accountto t) (dtposted t) (extract_time (memo t))
              (trnamt t))
           idslist (fitid t) ∧
         read_rows split_by_month (rows1 ++ [row]) (∅, ∅) =
           Ok ({[ fitid t ]} ∪ idslist,
               append_to (month_of split_by_month t) t txs)).
Proof.
  split; [apply make_unique_id_assigned|].
  intros rows split_by_month transactions H.
  unfold read_csv_file in H. apply bind_Ok in H as (st & Hrun & [= <-]).
  split.
  { by apply (read_rows_invariant _ _ _ _ Hrun), initial_invariant. }
  intros rows1 row rows2 ->.
  rewrite read_rows_app in Hrun. apply bind_Ok in Hrun as (st1 & Hrun1 & Hrun).
  simpl in Hrun. apply bind_Ok in Hrun as (st2 & Hrow & _).
  pose proof Hrow as (t & Ht & ->)%read_row_Ok.
  destruct st1 as [idslist txs]. exists idslist, txs, t.
  split; [done|]. split; [done|]. split.
  - pose proof Ht as Hid. apply row_transaction_Ok in Hid
      as (_&_&_&_&_&_&_&_&_&_&_&_&_&_&_&_&_&_&_& Hid).
    destruct (make_unique_id_assigned (accountto t) (dtposted t)
                (extract_time (memo t)) (trnamt t) idslist)
      as (uid & Huid & Hspec).
    cbn [fst] in Hid. rewrite Huid in Hid. by injection Hid as <-.
  - rewrite read_rows_app, Hrun1. simpl. by rewrite Hrow.
Qed.

(** ** The transaction type classifier *)

Lemma flagged_code (ing_code : string) :
  ing_code ∈ af_bij_codes ↔ ing_code ∈ ["DV"; "OV"; "VZ"].
Proof.
  unfold af_bij_codes.
  rewrite !elem_of_union, !elem_of_singleton, !elem_of_cons, elem_of_nil.
  tauto.
Qed.

Lemma trn_codes_other (ing_code : string) :
  ing_code ∉ ["GT"; "BA"; "GM"; "IC"; "ST"] → trn_codes !! ing_code = None.
Proof.
  intros H. rewrite !not_elem_of_cons in H. destruct H as (?&?&?&?&?&_).
  unfold trn_codes. rewrite !lookup_insert_ne by done.
  by apply lookup_singleton_ne.
Qed.

Lemma af_bij_map_other (af_bij : string) :
  af_bij ≠ "Af" → af_bij ≠ "Bij" → af_bij_map !! af_bij = None.
Proof.
  intros H1 H2. unfold af_bij_map.
  rewrite lookup_insert_ne by done. by apply lookup_singleton_ne.
Qed.

(** The codes that are not flagged are looked up in the table, whatever
    the flag. *)
Lemma classifier_unflagged (ing_code af_bij : string) :
  ing_code ∉ ["DV"; "OV"; "VZ"] →
  ing_code_to_trntype ing_code af_bij =
    Ok (if decide (ing_code = "GT") then "PAYMENT"
        else if decide (ing_code = "BA") then "POS"
        else if decide (ing_code = "GM") then "ATM"
        else if decide (ing_code = "IC") then "DIRECTDEBIT"
        else if decide (ing_code = "ST") then "DIRECTDEP"
        else "OTHER").
Proof.
  intros Hin. unfold ing_code_to_trntype.
  rewrite decide_False by by rewrite flagged_code.
  repeat (case_decide; [subst ing_code; reflexivity|]).
  rewrite trn_codes_other; [reflexivity|].
  rewrite !not_elem_of_cons. repeat split; try done. apply not_elem_of_nil.
Qed.

(** A flagged code with a flag of the mapping gives the type of the flag. *)
Lemma classifier_flagged (ing_code af_bij : string) :
  ing_code ∈ ["DV"; "OV"; "VZ"] → af_bij = "Af" ∨ af_bij = "Bij" →
  ing_code_to_trntype ing_code af_bij =
    Ok (if decide (af_bij = "Af") then "DEBIT" else "CREDIT").
Proof.
  intros Hin Hflag. unfold ing_code_to_trntype.
  rewrite decide_True by by apply flagged_code.
  destruct Hflag as [-> | ->]; reflexivity.
Qed.

(** C7. With a debit/credit flag that is ['Af'] or ['Bij']: the codes DV, OV
    and VZ give DEBIT for ['Af'] and CREDIT for ['Bij']; otherwise GT gives
    PAYMENT, BA gives POS, GM gives ATM, IC gives DIRECTDEBIT and ST gives
    DIRECTDEP; any other code gives OTHER. *)
Theorem classifier_table (ing_code af_bij : string) :
  af_bij = "Af" ∨ af_bij = "Bij" →
  ing_code_to_trntype ing_code af_bij =
    Ok (if decide (ing_code ∈ ["DV"; "OV"; "VZ"])
        then (if decide (af_bij = "Af") then "DEBIT" else "CREDIT")
        else if decide (ing_code = "GT") then "PAYMENT"
        else if decide (ing_code = "BA") then "POS"
        else if decide (ing_code = "GM") then "ATM"
        else if decide (ing_code = "IC") then "DIRECTDEBIT"
        else if decide (ing_code = "ST") then "DIRECTDEP"
        else "OTHER").
Proof.
  intros Hflag.
  destruct (decide (ing_code ∈ ["DV"; "OV"; "VZ"])) as [Hin|Hin].
  - by apply classifier_flagged.
  - by apply classifier_unflagged.
Qed.

(** C7 on a flagged code, a code of the table and an unknown code. *)
Lemma classifier_table_witness :
  ing_code_to_trntype "DV" "Bij" = Ok "CREDIT" ∧
  ing_code_to_trntype "GT" "Af" = Ok "PAYMENT" ∧
  ing_code_to_trntype "ZZ" "Af" = Ok "OTHER".
Proof.
  split; [|split].
  - apply (classifier_table "DV" "Bij"). right. reflexivity.
  - apply (classifier_table "GT" "Af"). left. reflexivity.
  - apply (classifier_table "ZZ" "Af"). left. reflexivity.
Defined.

(** C2, as the code has it.  The classifier fails on exactly one kind of
    input: a code among DV, OV and VZ with a flag that is neither ['Af'] nor
    ['Bij'] raises [KeyError] on the flag.  Every other input is given one
    of the eight transaction types. *)
Theorem classifier_total_but_for_unknown_flag (ing_code af_bij : string) :
  (ing_code ∈ ["DV"; "OV"; "VZ"] ∧ af_bij ≠ "Af" ∧ af_bij ≠ "Bij" ∧
   ing_code_to_trntype ing_code af_bij = Raise (KeyError af_bij))
  ∨
  ((ing_code ∉ ["DV"; "OV"; "VZ"] ∨ af_bij = "Af" ∨ af_bij = "Bij") ∧
   ∃ t, ing_code_to_trntype ing_code af_bij = Ok t ∧
        t ∈ ["DEBIT"; "CREDIT"; "PAYMENT"; "POS"; "ATM"; "DIRECTDEBIT";
             "DIRECTDEP"; "OTHER"]).
Proof.
  destruct (decide (ing_code ∈ ["DV"; "OV"; "VZ"])) as [Hin|Hin].
  - destruct (decide (af_bij = "Af" ∨ af_bij = "Bij")) as [Hflag|Hflag].
    + right. split; [tauto|]. eexists. split; [by apply classifier_flagged|].
      case_decide; repeat constructor.
    + left. repeat split; [done|tauto|tauto|].
      unfold ing_code_to_trntype. rewrite decide_True by by apply flagged_code.
      unfold getitem. rewrite af_bij_map_other; [done|tauto|tauto].
  - right. split; [tauto|]. eexists.
    split; [by apply classifier_unflagged|].
    repeat case_decide; repeat constructor.
Qed.

(** C2, an input on which the statement of the specification fails: the code
    DV with the flag ['X'] is not classified, the lookup of the flag fails. *)
Lemma classifier_rejects_unknown_flag :
  ing_code_to_trntype "DV" "X" = Raise (KeyError "X").
Proof. reflexivity. Qed.

(** ** Stripping *)

Lemma all_chars_app (p : ascii → bool) (s t : string) :
  all_chars p (s +:+ t) = all_chars p s && all_chars p t.
Proof.
  induction s as [|c s IH]; ssimpl; [done|]. by rewrite IH, andb_assoc.
Qed.

Lemma lstrip_split (s : string) :
  ∃ l, s = l +:+ lstrip s ∧ all_chars isspace l = true.
Proof.
  induction s as [|c s (l & IH & Hl)]; [by exists ""|].
  simpl. destruct (isspace c) eqn:Hc.
  - exists (String c l). ssimpl. rewrite Hc. split; [congruence|done].
  - by exists "".
Qed.

Lemma rstrip_split (s : string) :
  ∃ r, s = rstrip s +:+ r ∧ all_chars isspace r = true.
Proof.
  induction s as [|c s (r & IH & Hr)]; [by exists ""|].
  simpl. destruct (rstrip s) as [|x t] eqn:Ht.
  - rewrite sapp_nil in IH. subst r. destruct (isspace c) eqn:Hc.
    + exists (String c s). ssimpl. by rewrite Hc, Hr.
    + by exists s.
  - exists r. split; [by rewrite sapp_cons, <-IH|done].
Qed.

Lemma rstrip_rstrip (s : string) : rstrip (rstrip s) = rstrip s.
Proof.
  induction s as [|c s IH]; [done|].
  simpl. destruct (rstrip s) as [|x t] eqn:Ht.
  - destruct (isspace c) eqn:Hc; [done|]. simpl. by rewrite Hc.
  - change (rstrip (String c (String x t)))
      with (match rstrip (String x t) with
            | "" => if isspace c then "" else String c ""
            | t' => String c t'
            end).
    by rewrite IH.
Qed.

(** A string that does not begin with whitespace: [lstrip] leaves it. *)
Lemma lstrip_id (s : string) :
  lstrip s = s ↔ s = "" ∨ ∃ c s', s = String c s' ∧ isspace c = false.
Proof.
  split.
  - destruct s as [|c s]; [by left|]. intros H. right. exists c, s.
    split; [done|]. simpl in H. destruct (isspace c); [|done].
    destruct (lstrip_split s) as (l & Hs & _).
    apply (f_equal String.length) in H, Hs.
    rewrite length_sapp in Hs. simpl in H. lia.
  - intros [->|(c & s' & -> & Hc)]; [done|]. simpl. by rewrite Hc.
Qed.

Lemma lstrip_lstrip (s : string) : lstrip (lstrip s) = lstrip s.
Proof.
  induction s as [|c s IH]; [done|]. simpl.
  destruct (isspace c) eqn:Hc; [done|]. simpl. by rewrite Hc.
Qed.

Lemma lstrip_rstrip (s : string) :
  lstrip s = s → lstrip (rstrip s) = rstrip s.
Proof.
  intros [->|(c & s' & -> & Hc)]%lstrip_id; [done|].
  simpl. destruct (rstrip s'); rewrite ?Hc; simpl; by rewrite Hc.
Qed.

Lemma rstrip_space (s : string) (c : ascii) :
  isspace c = true → rstrip (s +:+ String c "") = rstrip s.
Proof.
  intros Hc. induction s as [|x s IH].
  - simpl. by rewrite Hc.
  - rewrite sapp_cons. cbn [rstrip]. by rewrite IH.
Qed.

Lemma rstrip_id (s : string) :
  rstrip s = s → ∀ s' c, s = s' +:+ String c "" → isspace c = false.
Proof.
  intros Hs s' c ->. destruct (isspace c) eqn:Hc; [|done].
  rewrite rstrip_space in Hs by done.
  destruct (rstrip_split s') as (r & Hs' & _).
  apply (f_equal String.length) in Hs, Hs'.
  rewrite length_sapp in Hs, Hs'. simpl in Hs. lia.
Qed.

Lemma strip_trimmed (s : string) : trimmed s (strip s).
Proof.
  unfold trimmed, strip.
  destruct (lstrip_split s) as (l & Hs & Hl).
  destruct (rstrip_split (lstrip s)) as (r & Hs' & Hr).
  exists l, r. split; [congruence|]. split; [done|]. split; [done|]. split.
  - intros c t' Ht.
    pose proof (lstrip_rstrip (lstrip s) (lstrip_lstrip s)) as Hl'.
    rewrite Ht in Hl'. apply lstrip_id in Hl' as [?|(c' & t'' & [= <- _] & ?)];
      done.
  - apply rstrip_id, rstrip_rstrip.
Qed.

Lemma strip_strip (s : string) : strip (strip s) = strip s.
Proof.
  unfold strip. rewrite lstrip_rstrip by apply lstrip_lstrip.
  apply rstrip_rstrip.
Qed.

(** ** Collapsing the runs of spaces *)

Lemma startswith_space_collapse (s : string) :
  startswith " " (collapse_spaces s) = startswith " " s.
Proof.
  induction s as [|c s IH]; [done|]. cbn [collapse_spaces].
  destruct (Ascii.eqb " " c) eqn:Hc; cbn [andb].
  - destruct (startswith " " s) eqn:Hs.
    + rewrite IH. simpl. by rewrite Hc.
    + simpl. by rewrite Hc.
  - simpl. by rewrite Hc.
Qed.

Lemma collapse_no_double_space (s : string) :
  no_double_space (collapse_spaces s) = true.
Proof.
  induction s as [|c s IH]; [done|]. cbn [collapse_spaces].
  destruct (Ascii.eqb " " c && startswith " " s) eqn:Hcs; [done|].
  cbn [no_double_space]. by rewrite startswith_space_collapse, Hcs, IH.
Qed.

Lemma no_double_space_collapse (s : string) :
  no_double_space s = true → collapse_spaces s = s.
Proof.
  induction s as [|c s IH]; [done|]. cbn [no_double_space collapse_spaces].
  intros [Hcs Hs]%andb_true_iff. apply negb_true_iff in Hcs.
  by rewrite Hcs, IH.
Qed.

Lemma startswith_app (p s t : string) :
  s ≠ "" → String.length p ≤ 1 →
  startswith p (s +:+ t) = startswith p s.
Proof.
  destruct s as [|c s]; [done|]. intros _.
  destruct p as [|a [|b p]]; [done|done|simpl; lia].
Qed.

Lemma no_double_space_app (s t : string) :
  no_double_space (s +:+ t) = true →
  no_double_space s = true ∧ no_double_space t = true.
Proof.
  induction s as [|c s IH]; [done|]. rewrite sapp_cons. cbn [no_double_space].
  intros [Hcs Hst]%andb_true_iff. destruct (IH Hst) as [Hs Ht].
  split; [|done]. rewrite Hs, andb_true_r.
  destruct s as [|x s]; [by rewrite andb_false_r|].
  by rewrite startswith_app in Hcs.
Qed.

Lemma no_double_space_strip (s : string) :
  no_double_space s = true → no_double_space (strip s) = true.
Proof.
  intros H. destruct (strip_trimmed s) as (l & r & Hs & _).
  rewrite Hs in H. apply no_double_space_app in H as [_ H].
  by apply no_double_space_app in H as [H _].
Qed.

(** [fix_text] in the words of the specification. *)
Lemma fix_text_escape (s : string) :
  fix_text s = escape (strip (collapse_spaces s)).
Proof.
  unfold fix_text, escape. by rewrite re_sub_two_or_more, !replace_char.
Qed.

(** ** Counting characters *)

Lemma count_app (c : ascii) (s t : string) :
  count c (s +:+ t) = count c s + count c t.
Proof. induction s as [|x s IH]; ssimpl; [done|]. rewrite IH. lia. Qed.

Lemma occurs_count (c : ascii) (s : string) :
  occurs c s = false ↔ count c s = 0.
Proof.
  induction s as [|x s IH]; [done|]. simpl.
  destruct (Ascii.eqb c x); simpl; [split; [done|lia]|exact IH].
Qed.

Lemma count_whitespace (c : ascii) (s : string) :
  isspace c = false → all_chars isspace s = true → count c s = 0.
Proof.
  intros Hc. induction s as [|x s IH]; [done|]. simpl.
  intros [Hx Hs]%andb_true_iff. rewrite IH by done.
  destruct (Ascii.eqb_spec c x) as [->|]; [congruence|done].
Qed.

Lemma count_strip (c : ascii) (s : string) :
  isspace c = false → count c (strip s) = count c s.
Proof.
  intros Hc. destruct (strip_trimmed s) as (l & r & Hs & Hl & Hr & _).
  rewrite Hs at 2.
  rewrite !count_app, (count_whitespace c l), (count_whitespace c r) by done.
  lia.
Qed.

Lemma count_collapse (c : ascii) (s : string) :
  Ascii.eqb c " " = false → count c (collapse_spaces s) = count c s.
Proof.
  intros Hc. induction s as [|x s IH]; [done|]. cbn [collapse_spaces].
  destruct (Ascii.eqb " " x && startswith " " s) eqn:Hxs.
  - apply andb_true_iff in Hxs as [<-%Ascii.eqb_eq _].
    simpl. by rewrite Hc, IH.
  - simpl. by rewrite IH.
Qed.

Lemma subst_chars_id (c : ascii) (new s : string) :
  count c s = 0 → subst_chars (char_to c new) s = s.
Proof.
  induction s as [|x s IH]; [done|]. simpl. unfold char_to at 1.
  destruct (Ascii.eqb c x); [done|]. intros H. by rewrite sapp_cons, IH.
Qed.

(** ** Escaping *)

(** The three replacements, one after the other, are one pass that maps
    each character to its entity: a ['&'] that an earlier replacement wrote
    is not replaced again. *)
Lemma escape_entity (s : string) : escape s = subst_chars entity s.
Proof.
  unfold escape. induction s as [|x s IH]; [done|].
  cbn [subst_chars]. rewrite !subst_chars_app, IH. f_equal.
  unfold entity, char_to.
  destruct (Ascii.eqb "&" x) eqn:E1.
  { by apply Ascii.eqb_eq in E1 as <-. }
  ssimpl. destruct (Ascii.eqb ">" x) eqn:E2.
  { by apply Ascii.eqb_eq in E2 as <-. }
  ssimpl. by destruct (Ascii.eqb "<" x) eqn:E3.
Qed.

Lemma escape_id (s : string) : specials s = 0 → escape s = s.
Proof.
  unfold specials, escape. intros H.
  rewrite (subst_chars_id "&") by lia. rewrite (subst_chars_id ">") by lia.
  apply subst_chars_id. lia.
Qed.

Lemma count_entity (x : ascii) :
  count ";" (entity x) = count ";" (String x "") + specials (String x "") ∧
  count "&" (entity x) = specials (String x "") ∧
  count ">" (entity x) = 0 ∧ count "<" (entity x) = 0.
Proof.
  unfold entity, specials.
  destruct (Ascii.eqb "&" x) eqn:E1.
  { by apply Ascii.eqb_eq in E1 as <-. }
  destruct (Ascii.eqb ">" x) eqn:E2.
  { by apply Ascii.eqb_eq in E2 as <-. }
  destruct (Ascii.eqb "<" x) eqn:E3.
  { by apply Ascii.eqb_eq in E3 as <-. }
  cbn [count]. rewrite E1, E2, E3. repeat split; lia.
Qed.

Lemma count_escape (s : string) :
  count ";" (escape s) = count ";" s + specials s ∧
  count "&" (escape s) = specials s ∧
  count ">" (escape s) = 0 ∧ count "<" (escape s) = 0.
Proof.
  rewrite escape_entity.
  induction s as [|x s (IH1 & IH2 & IH3 & IH4)]; [done|].
  cbn [subst_chars]. rewrite !count_app, IH1, IH2, IH3, IH4.
  destruct (count_entity x) as (-> & -> & -> & ->).
  unfold specials. cbn [count]. repeat split; lia.
Qed.

Lemma specials_trim (s : string) :
  specials (strip (collapse_spaces s)) = specials s.
Proof. unfold specials. by rewrite !count_strip, !count_collapse. Qed.

Lemma count_fix_text (s : string) :
  count ";" (fix_text s) = count ";" s + specials s ∧
  specials (fix_text s) = specials s.
Proof.
  rewrite fix_text_escape.
  destruct (count_escape (strip (collapse_spaces s))) as (H1 & H2 & H3 & H4).
  split.
  - by rewrite H1, specials_trim, count_strip, count_collapse.
  - unfold specials at 1. rewrite H2, H3, H4, specials_trim. lia.
Qed.

Lemma fix_text_clean (s : string) :
  specials s = 0 → fix_text s = strip (collapse_spaces s).
Proof.
  intros H. rewrite fix_text_escape. apply escape_id.
  by rewrite specials_trim.
Qed.

Lemma specials_occurs (s : string) :
  specials s = 0 ↔
  occurs "&" s = false ∧ occurs ">" s = false ∧ occurs "<" s = false.
Proof. unfold specials. rewrite !occurs_count. lia. Qed.

(** C3, as the code has it.  Sanitizing twice gives the same as sanitizing
    once exactly for the texts that contain none of ['&'], ['>'] and ['<']:
    [fix_text (fix_text s) = fix_text s] if and only if none of the three
    characters occurs in [s]. *)
Theorem sanitize_twice (s : string) :
  fix_text (fix_text s) = fix_text s ↔
  occurs "&" s = false ∧ occurs ">" s = false ∧ occurs "<" s = false.
Proof.
  rewrite <-specials_occurs. split.
  - intros H. destruct (count_fix_text (fix_text s)) as [H1 _].
    destruct (count_fix_text s) as [_ H2]. rewrite H, H2 in H1. lia.
  - intros H. rewrite (fix_text_clean s H). rewrite fix_text_clean.
    + rewrite no_double_space_collapse.
      * apply strip_strip.
      * apply no_double_space_strip, collapse_no_double_space.
    + by rewrite specials_trim.
Qed.

(** C3, an input on which the statement of the specification fails: the ['&']
    of an entity is escaped again. *)
Lemma sanitize_twice_ampersand :
  fix_text "R&D" = "R&amp;D" ∧ fix_text (fix_text "R&D") = "R&amp;amp;D".
Proof. split; reflexivity. Qed.

(** C6, as the code has it.  [fix_text] collapses every run of two or more
    spaces into one space, then trims the whitespace at both ends, and then
    replaces ['&'] by ['&amp;'], ['>'] by ['&gt;'] and ['<'] by ['&lt;'], in
    that order, which maps every character of the trimmed text to its
    entity once.  So ['<  name>'] becomes ['&lt; name&gt;'], with the one
    space the run collapses to. *)
Theorem sanitize_order (s : string) :
  (∃ t, trimmed (collapse_spaces s) t ∧ fix_text s = escape t ∧
        escape t = subst_chars entity t) ∧
  fix_text "<  name>" = "&lt; name&gt;".
Proof.
  split; [|reflexivity]. exists (strip (collapse_spaces s)).
  split; [apply strip_trimmed|]. split; [apply fix_text_escape|].
  apply escape_entity.
Qed.

(** C6, an input on which the statement of the specification fails: the text
    ['<  name>'] keeps one space and does not become ['&lt;name&gt;']. *)
Lemma sanitize_keeps_one_space :
  fix_text "<  name>" = "&lt; name&gt;" ∧
  String.eqb (fix_text "<  name>") "&lt;name&gt;" = false.
Proof. split; reflexivity. Qed.

(** ** The statement renderer *)

Lemma map_result_Ok {A B} (f : A → result B) (l : list A) (l' : list B) :
  map_result f l = Ok l' ↔ Forall2 (λ a b, f a = Ok b) l l'.
Proof.
  revert l'. induction l as [|a l IH]; intros l'; simpl.
  - split; [intros [= <-]; constructor|by intros ->%Forall2_nil_inv_l].
  - rewrite bind_Ok. split.
    + intros (b & Hb & H). apply bind_Ok in H as (bs & Hbs & [= <-]).
      constructor; [done|]. by apply IH.
    + intros (b & bs & Hb & Hbs & ->)%Forall2_cons_inv_l.
      exists b. split; [done|]. apply bind_Ok. exists bs. by rewrite IH.
Qed.

Lemma foldl_min_spec (x : Z) (l : list Z) :
  foldl Z.min x l ∈ x :: l ∧ ∀ y, y ∈ x :: l → (foldl Z.min x l ≤ y)%Z.
Proof.
  revert x. induction l as [|z l IH]; intros x; simpl.
  { split; [by left|]. intros y ->%list_elem_of_singleton. lia. }
  destruct (IH (Z.min x z)) as [Hin Hle]. split.
  - apply elem_of_cons in Hin as [->|Hin]; [|by do 2 right].
    destruct (Z.min_spec x z) as [[_ ->]|[_ ->]]; [by left|by right; left].
  - intros y Hy. rewrite !elem_of_cons in Hy.
    assert (foldl Z.min (Z.min x z) l ≤ Z.min x z)%Z by (apply Hle; by left).
    destruct Hy as [->|[->|Hy]]; [lia|lia|]. apply Hle. by right.
Qed.

Lemma foldl_max_spec (x : Z) (l : list Z) :
  foldl Z.max x l ∈ x :: l ∧ ∀ y, y ∈ x :: l → (y ≤ foldl Z.max x l)%Z.
Proof.
  revert x. induction l as [|z l IH]; intros x; simpl.
  { split; [by left|]. intros y ->%list_elem_of_singleton. lia. }
  destruct (IH (Z.max x z)) as [Hin Hle]. split.
  - apply elem_of_cons in Hin as [->|Hin]; [|by do 2 right].
    destruct (Z.max_spec x z) as [[_ ->]|[_ ->]]; [by right; left|by left].
  - intros y Hy. rewrite !elem_of_cons in Hy.
    assert (Z.max x z ≤ foldl Z.max (Z.max x z) l)%Z by (apply Hle; by left).
    destruct Hy as [->|[->|Hy]]; [lia|lia|]. apply Hle. by right.
Qed.

Lemma min_of_Ok (l : list Z) :
  l ≠ [] → ∃ m, min_of l = Ok m ∧ m ∈ l ∧ ∀ y, y ∈ l → (m ≤ y)%Z.
Proof.
  destruct l as [|x l]; [done|]. intros _. eexists. split; [done|].
  apply foldl_min_spec.
Qed.

Lemma max_of_Ok (l : list Z) :
  l ≠ [] → ∃ m, max_of l = Ok m ∧ m ∈ l ∧ ∀ y, y ∈ l → (y ≤ m)%Z.
Proof.
  destruct l as [|x l]; [done|]. intros _. eexists. split; [done|].
  apply foldl_max_spec.
Qed.

Lemma isdigit_not_space (c : ascii) : isdigit c = true → isspace c = false.
Proof.
  unfold isdigit, isspace. intros [H1 H2]%andb_true_iff.
  apply Nat.leb_le in H1, H2. apply orb_false_iff. split.
  - apply andb_false_iff. right. apply Nat.leb_gt. lia.
  - apply Nat.eqb_neq. lia.
Qed.

Lemma isdigit_not_sign (c : ascii) :
  isdigit c = true → Ascii.eqb "-" c = false ∧ Ascii.eqb "+" c = false.
Proof.
  intros H. split.
  - destruct (Ascii.eqb_spec "-" c) as [<-|]; [done|done].
  - destruct (Ascii.eqb_spec "+" c) as [<-|]; [done|done].
Qed.

Lemma rstrip_no_space (s : string) :
  all_chars (λ c, negb (isspace c)) s = true → rstrip s = s.
Proof.
  induction s as [|c s IH]; [done|]. simpl.
  intros [Hc Hs]%andb_true_iff. rewrite IH by done.
  destruct s; [|done]. by destruct (isspace c).
Qed.

Lemma all_chars_impl (p q : ascii → bool) (s : string) :
  (∀ c, p c = true → q c = true) →
  all_chars p s = true → all_chars q s = true.
Proof.
  intros Hpq. induction s as [|c s IH]; [done|]. simpl.
  intros [Hc Hs]%andb_true_iff. by rewrite Hpq, IH.
Qed.

Lemma strip_digits (s : string) : all_chars isdigit s = true → strip s = s.
Proof.
  intros H. unfold strip.
  assert (lstrip s = s) as ->.
  { destruct s as [|c s]; [done|]. simpl in *.
    apply andb_true_iff in H as [Hc _]. by rewrite isdigit_not_space. }
  apply rstrip_no_space. revert H. apply all_chars_impl.
  intros c Hc. by rewrite isdigit_not_space.
Qed.

Lemma int_digits_Some (acc : Z) (s : string) :
  all_chars isdigit s = true → ∃ n, int_digits acc s = Some n.
Proof.
  revert acc. induction s as [|c s IH]; intros acc; [by eexists|].
  simpl. intros [-> Hs]%andb_true_iff. by apply IH.
Qed.

(** [int] reads every non-empty string of digits. *)
Lemma int_of_digits (s : string) :
  s ≠ "" → all_chars isdigit s = true → ∃ n, int s = Ok n.
Proof.
  intros Hne Hs. unfold int. rewrite strip_digits by done.
  destruct s as [|c s]; [done|].
  assert (isdigit c = true) as Hc.
  { simpl in Hs. by apply andb_true_iff in Hs as [? _]. }
  destruct (isdigit_not_sign c Hc) as [Hm Hp].
  cbn [startswith]. rewrite Hm, Hp. cbn [andb orb].
  destruct (int_digits_Some 0 (String c s) Hs) as [n ->]. by eexists.
Qed.

Lemma int_eight_digits (s : string) : eight_digits s → ∃ n, int s = Ok n.
Proof.
  intros [Hlen Hs]. apply int_of_digits; [|done]. by intros ->.
Qed.

Lemma find_date_range_Ok (transactions : list transaction) :
  transactions ≠ [] →
  Forall (λ t, eight_digits (dtposted t)) transactions →
  ∃ mindate maxdate,
    find_date_range transactions = Ok (mindate, maxdate) ∧
    (∃ t, t ∈ transactions ∧ int (dtposted t) = Ok mindate) ∧
    (∃ t, t ∈ transactions ∧ int (dtposted t) = Ok maxdate) ∧
    ∀ t, t ∈ transactions →
      ∃ d, int (dtposted t) = Ok d ∧ (mindate ≤ d ≤ maxdate)%Z.
Proof.
  intros Hne Hdates. unfold find_date_range.
  assert (∃ dates, Forall2 (λ t d, int (dtposted t) = Ok d)
                     transactions dates) as [dates Hall].
  { clear Hne. induction Hdates as [|t ts Ht _ [dates IH]]; [by exists []|].
    destruct (int_eight_digits _ Ht) as [d Hd]. exists (d :: dates).
    by constructor. }
  pose proof Hall as ->%map_result_Ok.
  assert (dates ≠ []) as Hne'.
  { intros ->. by apply Forall2_nil_inv_r in Hall. }
  destruct (min_of_Ok dates Hne') as (lo & Elo & Hlo & Hmin).
  destruct (max_of_Ok dates Hne') as (hi & Ehi & Hhi & Hmax).
  cbn [mbind result_bind]. rewrite Elo. cbn [mbind result_bind]. rewrite Ehi.
  exists lo, hi. split; [done|]. repeat split.
  - apply list_elem_of_lookup in Hlo as [i Hi].
    destruct (Forall2_lookup_r _ _ _ _ _ Hall Hi) as (t & Ht & Hd).
    exists t. split; [|done]. by eapply list_elem_of_lookup_2.
  - apply list_elem_of_lookup in Hhi as [i Hi].
    destruct (Forall2_lookup_r _ _ _ _ _ Hall Hi) as (t & Ht & Hd).
    exists t. split; [|done]. by eapply list_elem_of_lookup_2.
  - intros t [i Hi]%list_elem_of_lookup.
    destruct (Forall2_lookup_l _ _ _ _ _ Hall Hi) as (d & Hd & Hint).
    exists d. split; [done|].
    apply list_elem_of_lookup_2 in Hd. split; [by apply Hmin|by apply Hmax].
Qed.

Lemma elem_of_find_accounts (transactions : list transaction) (a : string) :
  a ∈ find_accounts transactions ↔ ∃ t, t ∈ transactions ∧ account t = a.
Proof.
  unfold find_accounts. rewrite elem_of_list_to_set, list_elem_of_fmap.
  split; intros (t & H1 & H2); by exists t.
Qed.

(** ** [str] after [int] *)

Lemma pretty_digit (c : ascii) :
  isdigit c = true →
  pretty_N_char (N.of_nat (nat_of_ascii c) - 48) = c ∧
  (48 ≤ N.of_nat (nat_of_ascii c) < 58)%N.
Proof.
  destruct c as [[] [] [] [] [] [] [] []]; intros H;
    try discriminate H; by vm_compute.
Qed.

Lemma pretty_N_go_digit (acc : N) (c : ascii) (t : string) :
  isdigit c = true →
  (0 < 10 * acc + (N.of_nat (nat_of_ascii c) - 48))%N →
  pretty_N_go (10 * acc + (N.of_nat (nat_of_ascii c) - 48)) t =
  pretty_N_go acc (String c t).
Proof.
  intros [Hc Hrange]%pretty_digit Hpos.
  rewrite pretty_N_go_step by done. f_equal.
  - rewrite (N.mul_comm 10 acc), N.div_add_l by done.
    rewrite N.div_small by lia. lia.
  - rewrite N.add_comm, (N.mul_comm 10 acc), N.Div0.mod_add.
    rewrite N.mod_small by lia. by rewrite Hc.
Qed.

Lemma pretty_int_digits (acc : N) (s t : string) (n : Z) :
  all_chars isdigit s = true → (0 < acc)%N →
  int_digits (Z.of_N acc) s = Some n →
  (0 < n)%Z ∧ pretty_N_go (Z.to_N n) t = pretty_N_go acc (s +:+ t).
Proof.
  revert acc t. induction s as [|c s IH]; intros acc t Hs Hacc Hn.
  - injection Hn as <-. split; [lia|]. by rewrite N2Z.id.
  - simpl in Hs. apply andb_true_iff in Hs as [Hc Hs].
    cbn [int_digits] in Hn. rewrite Hc in Hn.
    destruct (pretty_digit c Hc) as [_ Hrange].
    replace (10 * Z.of_N acc + digit_value c)%Z
      with (Z.of_N (10 * acc + (N.of_nat (nat_of_ascii c) - 48))) in Hn
      by (unfold digit_value; lia).
    apply (IH _ t) in Hn as [Hpos Hn]; [|done|lia].
    split; [done|]. by rewrite sapp_cons, <-pretty_N_go_digit by (done || lia).
Qed.

(** A numeral that does not begin with [0] is written back as it is. *)
Lemma str_int (s : string) (n : Z) :
  all_chars isdigit s = true → startswith "0" s = false →
  int s = Ok n → str n = s.
Proof.
  intros Hs H0 Hint. unfold int in Hint. rewrite strip_digits in Hint by done.
  destruct s as [|c s]; [done|].
  assert (isdigit c = true) as Hc.
  { simpl in Hs. by apply andb_true_iff in Hs as [? _]. }
  destruct (isdigit_not_sign c Hc) as [Hm Hp].
  cbn [startswith] in Hint, H0. rewrite Hm, Hp in Hint. cbn [andb orb] in Hint.
  rewrite andb_true_r in H0.
  destruct (int_digits 0 (String c s)) as [n'|] eqn:Hn; [|done].
  injection Hint as ->. cbn [int_digits] in Hn. rewrite Hc in Hn.
  simpl in Hs. apply andb_true_iff in Hs as [_ Hs].
  destruct (pretty_digit c Hc) as [Hchar Hrange].
  assert (0 < N.of_nat (nat_of_ascii c) - 48)%N as Hpos.
  { destruct (decide (N.of_nat (nat_of_ascii c) - 48 = 0)%N) as [Hz|]; [|lia].
    rewrite Hz in Hchar. simpl in Hchar. subst c. done. }
  replace (10 * 0 + digit_value c)%Z
    with (Z.of_N (N.of_nat (nat_of_ascii c) - 48)) in Hn
    by (unfold digit_value; lia).
  apply (pretty_int_digits _ _ "") in Hn as [Hn Hpretty]; [|done..].
  destruct n as [|p|p]; [lia| |lia].
  unfold str, pretty, pretty_Z, pretty, pretty_positive, pretty, pretty_N.
  rewrite decide_False by done. simpl in Hpretty. rewrite Hpretty.
  rewrite sapp_empty_r.
  replace (N.of_nat (nat_of_ascii c) - 48)%N
    with (10 * 0 + (N.of_nat (nat_of_ascii c) - 48))%N by lia.
  rewrite pretty_N_go_digit; [done|done|lia].
Qed.

(** ** The markup of the statement *)

Lemma startswith_drop (p s : string) :
  startswith p s = true → s = p +:+ drop_chars (String.length p) s.
Proof.
  revert s. induction p as [|a p IH]; intros s; [done|].
  destruct s as [|b s]; [done|]. cbn [startswith String.length drop_chars].
  intros [Hab Hp]%andb_true_iff. apply Ascii.eqb_eq in Hab as ->.
  by rewrite sapp_cons, <-IH.
Qed.

Lemma split_at_Some (p s pre post : string) :
  split_at p s = Some (pre, post) → s = pre +:+ p +:+ post.
Proof.
  revert pre. induction s as [|c s IH]; intros pre.
  - cbn [split_at]. destruct (startswith p "") eqn:Hp; [|done].
    intros [= <- <-]. by apply startswith_drop.
  - cbn [split_at]. destruct (startswith p (String c s)) eqn:Hp.
    + intros [= <- <-]. by apply startswith_drop.
    + destruct (split_at p s) as [[pre' post']|]; [|done].
      intros [= <- <-]. by rewrite sapp_cons, <-IH.
Qed.

(** A part that stands in the fixed text before the rest. *)
Lemma in_order_text (p : string) (parts : list string)
    (text rest pre post : string) :
  split_at p text = Some (pre, post) →
  in_order parts (post +:+ rest) →
  in_order (p :: parts) (text +:+ rest).
Proof.
  intros ->%split_at_Some H. exists pre, (post +:+ rest).
  by rewrite !sapp_assoc.
Qed.

(** A field between its tags: the opening tag ends the fixed text before
    the field, and the closing tag begins the fixed text after it. *)
Lemma in_order_field (tag content : string) (parts : list string)
    (before after rest pre post : string) :
  split_at ("<" +:+ tag +:+ ">") before = Some (pre, "") →
  split_at ("</" +:+ tag +:+ ">") after = Some ("", post) →
  in_order parts (post +:+ rest) →
  in_order (tagged tag content :: parts)
    (before +:+ content +:+ after +:+ rest).
Proof.
  intros ->%split_at_Some ->%split_at_Some H.
  exists pre, (post +:+ rest). split; [|done].
  unfold tagged. by rewrite !sapp_assoc, !sapp_nil.
Qed.

Ltac in_order_step :=
  first [ eapply in_order_field; [reflexivity|reflexivity|]
        | eapply in_order_text; [reflexivity|] ].

Lemma make_message_start_opens (a : string) (mindate maxdate : Z) :
  opens_statement a (str mindate) (str maxdate)
    (make_message_start a mindate maxdate).
Proof.
  unfold opens_statement, make_message_start.
  rewrite <-(sapp_empty_r "</DTEND>").
  do 5 in_order_step. done.
Qed.

Lemma make_transaction_renders (t : transaction) :
  renders_transaction t (make_transaction t).
Proof.
  unfold renders_transaction, make_transaction.
  match goal with
  | |- context [memo t +:+ ?last] => rewrite <-(sapp_empty_r last)
  end.
  do 11 in_order_step. done.
Qed.

Lemma make_message_end_closes : closes_statement make_message_end.
Proof.
  unfold closes_statement. rewrite <-(sapp_empty_r make_message_end).
  do 2 in_order_step. done.
Qed.

(** ** The dates as numbers *)

Lemma int_digits_decimal (acc : Z) (s : string) :
  all_chars isdigit s = true →
  int_digits acc s =
    Some (acc * 10 ^ Z.of_nat (String.length s) + decimal s)%Z.
Proof.
  revert acc. induction s as [|c s IH]; intros acc.
  - intros _. cbn. f_equal. lia.
  - cbn [all_chars int_digits decimal String.length].
    intros [-> Hs]%andb_true_iff. rewrite (IH _ Hs). f_equal.
    rewrite Nat2Z.inj_succ, Z.pow_succ_r by lia.
    generalize (10 ^ Z.of_nat (String.length s))%Z. intros p. ring.
Qed.

(** [int] reads a date of eight digits as the number it denotes. *)
Lemma int_decimal (s : string) : eight_digits s → int s = Ok (decimal s).
Proof.
  intros [Hlen Hs]. unfold int. rewrite strip_digits by done.
  destruct s as [|c s]; [done|].
  assert (isdigit c = true) as Hc.
  { simpl in Hs. by apply andb_true_iff in Hs as [? _]. }
  destruct (isdigit_not_sign c Hc) as [Hm Hp].
  cbn [startswith]. rewrite Hm, Hp. cbn [andb orb].
  rewrite (int_digits_decimal 0 _ Hs). f_equal.
Qed.

Lemma bind_concat {A B} (f : A → list B) (l : list A) :
  l ≫= f = concat (f <$> l).
Proof. induction l as [|x l IH]; [done|]. by rewrite bind_cons, IH. Qed.

Lemma statement_block_of (transactions : list transaction)
    (mindate maxdate : Z) (a : string) :
  block_of transactions (str mindate) (str maxdate) a
    (statement_block transactions mindate maxdate a).
Proof.
  exists (make_message_start a mindate maxdate),
    (make_transaction <$> filter (λ t, account t = a) transactions),
    make_message_end.
  split; [done|]. split; [apply make_message_start_opens|].
  split; [|apply make_message_end_closes].
  apply Forall2_fmap_r, Forall_Forall2_diag, Forall_forall.
  intros t _. apply make_transaction_renders.
Qed.

Section Renderer.
(** The date of the run, and the order in which Python iterates over a
    set: some enumeration of its elements. *)
Variable today_str : string.
Variable set_iter : gset string → list string.
Hypothesis set_iter_elements : ∀ X, set_iter X ≡ₚ elements X.

(** C8, as the code has it.  For a non-empty group of transactions whose
    posted dates are 8-digit strings, [write_ofx_file] writes the header,
    one statement block for each distinct account of the group, and the
    footer.  The block of an account names the account and holds the texts
    of exactly the transactions of that account, in their order in the
    group.  The period of every block runs from the least to the greatest
    posted date of the whole group, the dates being compared as numbers;
    it is written as the decimal numerals of these numbers, without
    leading zeros, which for a date that does not begin with [0] is the
    date as it is. *)
Theorem statement_blocks (transactions : list transaction) :
  transactions ≠ [] →
  Forall (λ t, eight_digits (dtposted t)) transactions →
  ∃ accounts blocks earliest latest,
    write_ofx_file today_str set_iter transactions =
      Ok ([make_header today_str] ++ concat blocks ++ [make_footer]) ∧
    NoDup accounts ∧
    (∀ a, a ∈ accounts ↔ ∃ t, t ∈ transactions ∧ account t = a) ∧
    earliest ∈ transactions ∧ latest ∈ transactions ∧
    (∀ t, t ∈ transactions →
       (decimal (dtposted earliest) ≤ decimal (dtposted t)
          ≤ decimal (dtposted latest))%Z) ∧
    Forall2 (block_of transactions
               (str (decimal (dtposted earliest)))
               (str (decimal (dtposted latest))))
      accounts blocks ∧
    (startswith "0" (dtposted earliest) = false →
       str (decimal (dtposted earliest)) = dtposted earliest) ∧
    (startswith "0" (dtposted latest) = false →
       str (decimal (dtposted latest)) = dtposted latest).
Proof.
  intros Hne Hdates.
  destruct (find_date_range_Ok transactions Hne Hdates)
    as (mindate & maxdate & Hrange & (earliest & Hearliest & Hmin) &
        (latest & Hlatest & Hmax) & Hall).
  rewrite Forall_forall in Hdates.
  rewrite (int_decimal _ (Hdates _ Hearliest)) in Hmin. injection Hmin as <-.
  rewrite (int_decimal _ (Hdates _ Hlatest)) in Hmax. injection Hmax as <-.
  exists (set_iter (find_accounts transactions)),
    (statement_block transactions (decimal (dtposted earliest))
       (decimal (dtposted latest)) <$> set_iter (find_accounts transactions)),
    earliest, latest.
  split. { unfold write_ofx_file. by rewrite Hrange, <-bind_concat. }
  split. { rewrite set_iter_elements. apply NoDup_elements. }
  split.
  { intros a. rewrite set_iter_elements, elem_of_elements.
    apply elem_of_find_accounts. }
  split; [done|]. split; [done|]. split.
  { intros t Ht. destruct (Hall t Ht) as (d & Hd & Hle).
    rewrite (int_decimal _ (Hdates _ Ht)) in Hd. by injection Hd as <-. }
  split.
  { apply Forall2_fmap_r, Forall_Forall2_diag, Forall_forall.
    intros a _. apply statement_block_of. }
  split.
  - intros Hzero. destruct (Hdates _ Hearliest) as [_ Hdigits].
    apply str_int; [done|done|]. by apply int_decimal, Hdates.
  - intros Hzero. destruct (Hdates _ Hlatest) as [_ Hdigits].
    apply str_int; [done|done|]. by apply int_decimal, Hdates.
Qed.
End Renderer.

(** C8, a group on which the statement of the specification fails: the
    earliest posted date is [00000101], and the period of the statement
    begins with [101]. *)
Lemma statement_period_of_year_0 :
  Forall (λ t, eight_digits (dtposted t)) example_year_0 ∧
  (out ← write_ofx_file "20170301" elements example_year_0;
   Ok (existsb (contains (tagged "DTSTART" "101")) out,
       existsb (contains (tagged "DTSTART" "00000101")) out))
    = Ok (true, false).
Proof.
  split; [|by vm_compute].
  unfold example_year_0, eight_digits. repeat constructor.
Qed.

(** C8 on a group of three transactions of two accounts. *)
Lemma statement_blocks_witness :
  ∃ accounts blocks earliest latest,
    write_ofx_file "20170301" elements example_group =
      Ok ([make_header "20170301"] ++ concat blocks ++ [make_footer]) ∧
    NoDup accounts ∧
    (∀ a, a ∈ accounts ↔ ∃ t, t ∈ example_group ∧ account t = a) ∧
    earliest ∈ example_group ∧ latest ∈ example_group ∧
    (∀ t, t ∈ example_group →
       (decimal (dtposted earliest) ≤ decimal (dtposted t)
          ≤ decimal (dtposted latest))%Z) ∧
    Forall2 (block_of example_group
               (str (decimal (dtposted earliest)))
               (str (decimal (dtposted latest))))
      accounts blocks ∧
    (startswith "0" (dtposted earliest) = false →
       str (decimal (dtposted earliest)) = dtposted earliest) ∧
    (startswith "0" (dtposted latest) = false →
       str (decimal (dtposted latest)) = dtposted latest).
Proof.
  apply (statement_blocks "20170301" elements).
  - intros X. reflexivity.
  - discriminate.
  - unfold example_group, eight_digits. repeat constructor.
Defined.


(** ** Matching the pieces of the date and time pattern *)

Lemma elem_of_matches_cat (r1 r2 : regex) (s : string) (caps : list string)
    (m : string * list string) :
  m ∈ matches (Cat r1 r2) s caps ↔
  ∃ s1 caps1, (s1, caps1) ∈ matches r1 s caps ∧ m ∈ matches r2 s1 caps1.
Proof.
  cbn [matches]. rewrite list_elem_of_bind. split.
  - intros ([s1 caps1] & H1 & H2). by exists s1, caps1.
  - intros (s1 & caps1 & H1 & H2). by exists (s1, caps1).
Qed.

Lemma elem_of_matches_one (a : cclass) (s : string) (caps : list string)
    (rest : string) (caps' : list string) :
  (rest, caps') ∈ matches (One a) s caps ↔
  ∃ c, s = String c rest ∧ accepts a c = true ∧ caps' = caps.
Proof.
  cbn [matches]. destruct s as [|c s].
  - split; [by intros ?%elem_of_nil|by intros (c & [=] & _)].
  - destruct (accepts a c) eqn:Hc.
    + rewrite list_elem_of_singleton. split.
      * intros [= -> ->]. by exists c.
      * by intros (c' & [= <- ->] & _ & ->).
    + split; [by intros ?%elem_of_nil|].
      intros (c' & [= <- _] & Hc' & _). congruence.
Qed.

Lemma elem_of_matches_two_digits (s : string) (caps : list string)
    (rest : string) (caps' : list string) :
  (rest, caps') ∈ matches (Rep 2 (One Digit)) s caps ↔
  ∃ d, two_digits d ∧ s = d +:+ rest ∧ caps' = caps.
Proof.
  cbn [Rep]. rewrite elem_of_matches_cat. split.
  - intros (s1 & caps1 & (a & -> & Ha & ->)%elem_of_matches_one & H).
    apply elem_of_matches_cat in H
      as (s2 & caps2 & (b & -> & Hb & ->)%elem_of_matches_one & H).
    apply list_elem_of_singleton in H as [= -> ->].
    exists (String a (String b "")). split; [by exists a, b|done].
  - intros (d & (a & b & -> & Ha & Hb) & -> & ->).
    exists (String b rest), caps. split.
    { apply elem_of_matches_one. by exists a. }
    apply elem_of_matches_cat. exists rest, caps. split.
    { apply elem_of_matches_one. by exists b. }
    by apply list_elem_of_singleton.
Qed.

Lemma substring_prefix (u r : string) :
  substring 0 (String.length (u +:+ r) - String.length r) (u +:+ r) = u.
Proof.
  rewrite length_sapp.
  replace (String.length u + String.length r - String.length r)
    with (String.length u) by lia.
  induction u as [|c u IH]; [by destruct r|]. ssimpl. by rewrite IH.
Qed.

Lemma elem_of_matches_group (s : string) (caps : list string)
    (rest : string) (caps' : list string) :
  (rest, caps') ∈ matches (Grp (Rep 2 (One Digit))) s caps ↔
  ∃ d, two_digits d ∧ s = d +:+ rest ∧ caps' = caps ++ [d].
Proof.
  cbn [matches]. rewrite list_elem_of_fmap. split.
  - intros ([s1 caps1] & [= -> ->] & H).
    apply elem_of_matches_two_digits in H as (d & Hd & -> & ->).
    exists d. cbn [fst snd]. by rewrite substring_prefix.
  - intros (d & Hd & -> & ->). exists (rest, caps). split.
    + cbn [fst snd]. by rewrite substring_prefix.
    + apply elem_of_matches_two_digits. by exists d.
Qed.

Lemma elem_of_matches_literal (c : ascii) (s : string) (caps : list string)
    (rest : string) (caps' : list string) :
  (rest, caps') ∈ matches (One (Lit c)) s caps ↔
  s = String c rest ∧ caps' = caps.
Proof.
  rewrite elem_of_matches_one. cbn [accepts]. split.
  - by intros (x & -> & ->%Ascii.eqb_eq & ->).
  - intros [-> ->]. exists c. by rewrite Ascii.eqb_refl.
Qed.

Lemma elem_of_matches_century (s : string) (caps : list string)
    (rest : string) (caps' : list string) :
  (rest, caps') ∈ matches (Opt (Str "20")) s caps ↔
  (s = rest ∨ s = "20" +:+ rest) ∧ caps' = caps.
Proof.
  change (matches (Opt (Str "20")) s caps)
    with (matches (Cat (One (Lit "2")) (Cat (One (Lit "0")) Eps)) s caps ++
          [(s, caps)]).
  rewrite elem_of_app, list_elem_of_singleton, elem_of_matches_cat. split.
  - intros [(s1 & caps1 & [-> ->]%elem_of_matches_literal & H)|[= -> ->]];
      [|by split; [left|]].
    apply elem_of_matches_cat in H
      as (s2 & caps2 & [-> ->]%elem_of_matches_literal & H).
    apply list_elem_of_singleton in H as [= -> ->]. by split; [right|].
  - intros [[->| ->] ->]; [by right|]. left.
    exists (String "0" rest), caps. split; [by apply elem_of_matches_literal|].
    apply elem_of_matches_cat. exists rest, caps.
    split; [by apply elem_of_matches_literal|by apply list_elem_of_singleton].
Qed.

(** The matches of the whole pattern at the start of [s]: [s] begins
    with a date and a time, and the groups are its hour and its minute. *)
Lemma elem_of_matches_date_time (s rest : string) (caps : list string) :
  (rest, caps) ∈ matches date_time s [] ↔
  ∃ w hh mm, s = w +:+ rest ∧ caps = [hh; mm] ∧
    (date_time_text "" w hh mm ∨ date_time_text "20" w hh mm).
Proof.
  unfold date_time. split.
  - intros H.
    apply elem_of_matches_cat in H
      as (s1 & c1 & (dd & Hdd & -> & ->)%elem_of_matches_two_digits & H).
    apply elem_of_matches_cat in H
      as (s2 & c2 & [-> ->]%elem_of_matches_literal & H).
    apply elem_of_matches_cat in H
      as (s3 & c3 & (mo & Hmo & -> & ->)%elem_of_matches_two_digits & H).
    apply elem_of_matches_cat in H
      as (s4 & c4 & [-> ->]%elem_of_matches_literal & H).
    apply elem_of_matches_cat in H
      as (s5 & c5 & [Hcentury ->]%elem_of_matches_century & H).
    apply elem_of_matches_cat in H
      as (s6 & c6 & (yy & Hyy & -> & ->)%elem_of_matches_two_digits & H).
    apply elem_of_matches_cat in H
      as (s7 & c7 & [-> ->]%elem_of_matches_literal & H).
    apply elem_of_matches_cat in H
      as (s8 & c8 & (hh & Hhh & -> & ->)%elem_of_matches_group & H).
    apply elem_of_matches_cat in H
      as (s9 & c9 & [-> ->]%elem_of_matches_literal & H).
    apply elem_of_matches_group in H as (mm & Hmm & -> & ->).
    destruct Hcentury as [-> | ->].
    + exists (dd +:+ "-" +:+ mo +:+ "-" +:+ "" +:+ yy +:+ " " +:+
              hh +:+ ":" +:+ mm), hh, mm.
      split; [by rewrite !sapp_assoc|]. split; [done|]. left.
      by exists dd, mo, yy.
    + exists (dd +:+ "-" +:+ mo +:+ "-" +:+ "20" +:+ yy +:+ " " +:+
              hh +:+ ":" +:+ mm), hh, mm.
      split; [by rewrite !sapp_assoc|]. split; [done|]. right.
      by exists dd, mo, yy.
  - intros (w & hh & mm & -> & -> & Hw).
    assert (∃ dd mo yy century,
              two_digits dd ∧ two_digits mo ∧ two_digits yy ∧
              two_digits hh ∧ two_digits mm ∧
              (century = "" ∨ century = "20") ∧
              w = dd +:+ "-" +:+ mo +:+ "-" +:+ century +:+ yy +:+ " " +:+
                  hh +:+ ":" +:+ mm)
      as (dd & mo & yy & century & Hdd & Hmo & Hyy & Hhh & Hmm & Hc & ->).
    { destruct Hw as [(dd & mo & yy & ? & ? & ? & ? & ? & ->)|
                      (dd & mo & yy & ? & ? & ? & ? & ? & ->)];
        exists dd, mo, yy; eexists; repeat split; eauto. }
    rewrite !sapp_assoc.
    apply elem_of_matches_cat. eexists _, _. split.
    { apply elem_of_matches_two_digits. by exists dd. }
    apply elem_of_matches_cat. eexists _, _. split.
    { by apply elem_of_matches_literal. }
    apply elem_of_matches_cat. eexists _, _. split.
    { apply elem_of_matches_two_digits. by exists mo. }
    apply elem_of_matches_cat. eexists _, _. split.
    { by apply elem_of_matches_literal. }
    apply elem_of_matches_cat. eexists _, _. split.
    { apply elem_of_matches_century. split; [|done].
      destruct Hc as [-> | ->]; [by left|by right]. }
    apply elem_of_matches_cat. eexists _, _. split.
    { apply elem_of_matches_two_digits. by exists yy. }
    apply elem_of_matches_cat. eexists _, _. split.
    { by apply elem_of_matches_literal. }
    apply elem_of_matches_cat. eexists _, _. split.
    { apply elem_of_matches_group. by exists hh. }
    apply elem_of_matches_cat. eexists _, _. split.
    { by apply elem_of_matches_literal. }
    apply elem_of_matches_group. by exists mm.
Qed.

(** ** The first date and time of a memo *)

Lemma sapp_inj_length (u v u' v' : string) :
  u +:+ v = u' +:+ v' → String.length u = String.length u' →
  u = u' ∧ v = v'.
Proof.
  revert u'. induction u as [|c u IH]; intros [|c' u'] H Hlen;
    try done; rewrite !sapp_cons in H.
  injection H as -> H. injection Hlen as Hlen.
  by destruct (IH u' H Hlen) as [-> ->].
Qed.

Lemma date_time_text_digits (century w hh mm : string) :
  date_time_text century w hh mm → two_digits hh ∧ two_digits mm.
Proof. by intros (dd & mo & yy & _ & _ & _ & Hhh & Hmm & _). Qed.

Ltac two_digits_chars :=
  repeat match goal with
         | H : two_digits _ |- _ =>
             let a := fresh "a" in
             let b := fresh "b" in
             destruct H as (a & b & -> & ? & ?)
         end.

(** A date and a time at the start of a string are read in one way. *)
Lemma starts_date_time_unique (s hh mm hh' mm' : string) :
  starts_date_time s hh mm → starts_date_time s hh' mm' →
  hh = hh' ∧ mm = mm'.
Proof.
  intros (w & rest & -> & Hw) (w' & rest' & Heq & Hw').
  destruct Hw as [Hw|Hw], Hw' as [Hw'|Hw'];
    destruct Hw as (dd & mo & yy & ? & ? & ? & ? & ? & ->);
    destruct Hw' as (dd' & mo' & yy' & ? & ? & ? & ? & ? & ->);
    two_digits_chars;
    rewrite ?sapp_cons, ?sapp_nil in Heq; simplify_eq; done.
Qed.

Lemma starts_date_time_matches (s hh mm : string) :
  starts_date_time s hh mm ↔ ∃ rest, (rest, [hh; mm]) ∈ matches date_time s [].
Proof.
  split.
  - intros (w & rest & -> & Hw). exists rest.
    apply elem_of_matches_date_time. by exists w, hh, mm.
  - intros (rest & (w & hh' & mm' & -> & [= -> ->] & Hw)%elem_of_matches_date_time).
    by exists w, rest.
Qed.

Lemma matches_date_time_groups (s rest : string) (caps : list string) :
  (rest, caps) ∈ matches date_time s [] →
  ∃ hh mm, caps = [hh; mm] ∧ starts_date_time s hh mm.
Proof.
  intros (w & hh & mm & -> & -> & Hw)%elem_of_matches_date_time.
  exists hh, mm. split; [done|]. by exists w, rest.
Qed.

Lemma no_match_no_date_time (s hh mm : string) :
  matches date_time s [] = [] → ¬ starts_date_time s hh mm.
Proof.
  intros Hnil [rest H]%starts_date_time_matches.
  rewrite Hnil in H. by apply elem_of_nil in H.
Qed.

(** [re.search] returns the first match at the leftmost position that has
    one. *)
Lemma re_search_Some (r : regex) (memo : string) (caps : list string) :
  re_search r memo = Some caps →
  ∃ pre s rest others, memo = pre +:+ s ∧
    matches r s [] = (rest, caps) :: others ∧
    ∀ pre' s', memo = pre' +:+ s' →
      String.length pre' < String.length pre → matches r s' [] = [].
Proof.
  induction memo as [|c memo IH]; cbn [re_search].
  - destruct (matches r "" []) as [|[rest caps'] others] eqn:Hm; [done|].
    intros [= <-]. exists "", "", rest, others.
    split; [done|]. split; [done|]. simpl. lia.
  - destruct (matches r (String c memo) []) as [|[rest caps'] others] eqn:Hm.
    + intros (pre & s & rest & others & -> & Hs & Hfirst)%IH.
      exists (String c pre), s, rest, others.
      split; [done|]. split; [done|]. intros [|c' pre'] s' Heq Hlen.
      * rewrite sapp_nil in Heq. by subst s'.
      * rewrite !sapp_cons in Heq. injection Heq as <- Heq.
        apply (Hfirst pre' s' Heq). simpl in Hlen. lia.
    + intros [= <-]. exists "", (String c memo), rest, others.
      split; [done|]. split; [done|]. simpl. lia.
Qed.

Lemma re_search_None (r : regex) (memo : string) :
  re_search r memo = None →
  ∀ pre s, memo = pre +:+ s → matches r s [] = [].
Proof.
  induction memo as [|c memo IH]; cbn [re_search].
  - destruct (matches r "" []) eqn:Hm; [|done].
    intros _ [|c' pre] s Heq; [|done]. rewrite sapp_nil in Heq. by subst s.
  - destruct (matches r (String c memo) []) eqn:Hm; [|done].
    intros Hnone [|c' pre] s Heq.
    + rewrite sapp_nil in Heq. by subst s.
    + rewrite sapp_cons in Heq. injection Heq as <- Heq. by eapply IH.
Qed.

Lemma first_date_time_unique (memo hh mm hh' mm' : string) :
  first_date_time memo hh mm → first_date_time memo hh' mm' →
  hh = hh' ∧ mm = mm'.
Proof.
  intros (pre & s & -> & Hs & Hfirst) (pre' & s' & Heq & Hs' & Hfirst').
  destruct (lt_eq_lt_dec (String.length pre) (String.length pre'))
    as [[Hlt|Hlen]|Hlt].
  - by destruct (Hfirst' pre s hh mm eq_refl Hlt).
  - apply sapp_inj_length in Heq as [-> ->]; [|done].
    by eapply starts_date_time_unique.
  - by destruct (Hfirst pre' s' hh' mm' Heq Hlt).
Qed.

(** The two cases of [extract_time]. *)
Lemma extract_time_cases (memo : string) :
  (∃ hh mm, first_date_time memo hh mm ∧ extract_time memo = hh +:+ mm) ∨
  (no_date_time memo ∧ extract_time memo = "").
Proof.
  unfold extract_time. destruct (re_search date_time memo) as [caps|] eqn:Hre.
  - left. apply re_search_Some in Hre
      as (pre & s & rest & others & -> & Hm & Hfirst).
    destruct (matches_date_time_groups s rest caps) as (hh & mm & -> & Hs).
    { rewrite Hm. by left. }
    exists hh, mm. split; [|done]. exists pre, s. split; [done|].
    split; [done|]. intros pre' s' hh' mm' Heq Hlen.
    by apply no_match_no_date_time, (Hfirst pre').
  - right. split; [|done]. intros pre s hh mm Heq.
    by apply no_match_no_date_time, (re_search_None _ _ Hre pre).
Qed.

(** C5, as the code has it.  [extract_time] returns the two digits of the
    hour followed by the two digits of the minute of the first date and
    time of the memo, and the empty string when the memo has none.  A date
    and a time are [DD-MM-YY HH:MM] or [DD-MM-20YY HH:MM]: the year has two
    digits, or four digits of which the first two are [20]. *)
Theorem time_of_first_date_time (memo : string) :
  (∀ hh mm, first_date_time memo hh mm → extract_time memo = hh +:+ mm) ∧
  (no_date_time memo → extract_time memo = "") ∧
  ((∃ hh mm, first_date_time memo hh mm) ∨ no_date_time memo) ∧
  (extract_time memo = "" ∨
   String.length (extract_time memo) = 4 ∧
   all_chars isdigit (extract_time memo) = true).
Proof.
  destruct (extract_time_cases memo)
    as [(hh & mm & Hfirst & Htime)|[Hnone Htime]].
  - split; [|split; [|split]].
    + intros hh' mm' Hfirst'.
      by destruct (first_date_time_unique _ _ _ _ _ Hfirst Hfirst') as [<- <-].
    + intros Hnone. destruct Hfirst as (pre & s & Heq & Hs & _).
      by destruct (Hnone pre s hh mm Heq).
    + left. by exists hh, mm.
    + right. rewrite Htime. destruct Hfirst as (_ & s & _ & Hs & _).
      destruct Hs as (w & _ & _ & [Hw|Hw]);
        apply date_time_text_digits in Hw as [Hhh Hmm];
        two_digits_chars; ssimpl; (split; [done|]);
        rewrite !andb_true_iff; by repeat split.
  - split; [|split; [|split]].
    + intros hh mm (pre & s & Heq & Hs & _).
      by destruct (Hnone pre s hh mm Heq).
    + done.
    + by right.
    + by left.
Qed.

(** C5, an input on which the statement of the specification fails: a date
    whose year has four digits that do not begin with [20] is not found. *)
Lemma time_of_year_1999 :
  (∃ century, two_digits century ∧
     date_time_text century "05-03-1999 14:22" "14" "22") ∧
  extract_time "05-03-1999 14:22" = "".
Proof.
  split; [|reflexivity]. exists "19". split; [by exists "1"%char, "9"%char|].
  exists "05", "03", "99".
  repeat split; by eexists _, _.
Qed.

(** C5 on a memo that is a date and a time, and on a memo without one. *)
Lemma time_of_first_date_time_witness :
  extract_time "05-03-17 14:22" = "1422" ∧ extract_time "x" = "".
Proof.
  split.
  - apply (proj1 (time_of_first_date_time "05-03-17 14:22") "14" "22").
    exists "", "05-03-17 14:22". split; [reflexivity|]. split.
    + exists "05-03-17 14:22", "". split; [reflexivity|]. left.
      exists "05", "03", "17".
      repeat split; by eexists _, _.
    + intros pre' s' hh' mm' _ Hlen. simpl in Hlen. lia.
  - apply (proj1 (proj2 (time_of_first_date_time "x"))).
    intros pre s hh mm Heq. apply no_match_no_date_time.
    destruct pre as [|c [|c' pre]]; rewrite ?sapp_cons, ?sapp_nil in Heq.
    + by subst s.
    + injection Heq as <- <-. reflexivity.
    + by destruct pre.
Defined.

(** ** The fields of a transaction *)

(** C9, as the code has it.  The account of the transaction is the raw
    account identifier without its spaces: every space is removed, also
    between other characters, and every other character is kept. *)
Theorem account_without_spaces (row : gmap string string)
    (idslist : gset string) (t : transaction) :
  row_transaction row idslist = Ok t →
  ∃ rekening, row !! "Rekening" = Some rekening ∧
    account t = without " " rekening.
Proof.
  intros (rekening & _ & _ & _ & _ & _ & Hrow & _ & _ & _ & _ & _ & _ & _
          & Haccount & _)%row_transaction_Ok.
  exists rekening. split; [done|]. by rewrite Haccount, re_sub_spaces.
Qed.

(** C9 on the first example row. *)
Lemma account_without_spaces_witness :
  ∃ t, row_transaction (hd ∅ example_rows) ∅ = Ok t ∧
    ∃ rekening, hd ∅ example_rows !! "Rekening" = Some rekening ∧
      account t = without " " rekening.
Proof.
  destruct (row_transaction (hd ∅ example_rows) ∅) as [t|e] eqn:E;
    [|by vm_compute in E].
  exists t. split; [reflexivity|].
  exact (account_without_spaces (hd ∅ example_rows) ∅ t E).
Defined.

(** C9, an input on which the statement of the specification fails: the spaces
    inside the account identifier are removed, which stripping would keep. *)
Lemma account_interior_spaces :
  ∃ t, row_transaction (hd ∅ example_rows) ∅ = Ok t ∧
    hd ∅ example_rows !! "Rekening" = Some "NL91 INGB 0002 4455 88" ∧
    account t = "NL91INGB0002445588" ∧
    strip "NL91 INGB 0002 4455 88" = "NL91 INGB 0002 4455 88".
Proof. eexists. by vm_compute. Qed.

Lemma collapse_other (c : ascii) (s : string) :
  Ascii.eqb " " c = false →
  collapse_spaces (String c s) = String c (collapse_spaces s).
Proof. intros Hc. cbn [collapse_spaces]. by rewrite Hc. Qed.

Lemma collapse_blanks (n : nat) (s : string) :
  startswith " " s = false →
  collapse_spaces (blanks (S n) +:+ s) = String " " (collapse_spaces s).
Proof.
  intros Hs. induction n as [|n IH].
  - change (blanks 1 +:+ s) with (String " " s).
    cbn [collapse_spaces]. by rewrite Hs.
  - change (blanks (S (S n)) +:+ s) with (String " " (blanks (S n) +:+ s)).
    cbn [collapse_spaces]. by rewrite IH.
Qed.

(** C10. The time of the fingerprint is extracted from the sanitized memo:
    the ID of the transaction is the one assigned for the base fingerprint
    whose time is [extract_time] of [fix_text] of the notes.  With notes
    that hold [05-03-17] and [14:22] with a run of spaces between them,
    that time is [1422], the run being collapsed before the pattern is
    searched; the notes themselves, with two spaces, hold no date and
    time. *)
Theorem time_from_sanitized_memo (row : gmap string string)
    (idslist : gset string) (t : transaction) :
  row_transaction row idslist = Ok t →
  ∃ mededelingen, row !! "Mededelingen" = Some mededelingen ∧
    memo t = fix_text mededelingen ∧
    assigned_id
      (fingerprint (accountto t) (dtposted t)
         (extract_time (fix_text mededelingen)) (trnamt t))
      idslist (fitid t) ∧
    (∀ n, mededelingen = "05-03-17" +:+ blanks (S n) +:+ "14:22" →
       extract_time (fix_text mededelingen) = "1422") ∧
    extract_time "05-03-17  14:22" = "".
Proof.
  intros (_ & _ & _ & _ & _ & mededelingen & _ & _ & _ & _ & _ & _ & _
          & Hrow & _ & _ & _ & _ & Hmemo & Hid)%row_transaction_Ok.
  exists mededelingen. split; [done|]. split; [done|]. split; [|split].
  - destruct (make_unique_id_assigned (accountto t) (dtposted t)
                (extract_time (memo t)) (trnamt t) idslist)
      as (uid & Huid & Hspec).
    rewrite Huid in Hid. injection Hid as ->. by rewrite <-Hmemo.
  - intros n ->. rewrite fix_text_escape.
    change ("05-03-17" +:+ blanks (S n) +:+ "14:22")
      with (String "0" (String "5" (String "-" (String "0" (String "3"
             (String "-" (String "1" (String "7"
                (blanks (S n) +:+ "14:22"))))))))).
    rewrite !collapse_other by done. by rewrite collapse_blanks.
  - reflexivity.
Qed.

(** C10 on the first example row. *)
Lemma time_from_sanitized_memo_witness :
  ∃ t, row_transaction (hd ∅ example_rows) ∅ = Ok t ∧
    ∃ mededelingen,
      hd ∅ example_rows !! "Mededelingen" = Some mededelingen ∧
      memo t = fix_text mededelingen ∧
      assigned_id
        (fingerprint (accountto t) (dtposted t)
           (extract_time (fix_text mededelingen)) (trnamt t))
        ∅ (fitid t) ∧
      (∀ n, mededelingen = "05-03-17" +:+ blanks (S n) +:+ "14:22" →
         extract_time (fix_text mededelingen) = "1422") ∧
      extract_time "05-03-17  14:22" = "".
Proof.
  destruct (row_transaction (hd ∅ example_rows) ∅) as [t|e] eqn:E;
    [|by vm_compute in E].
  exists t. split; [reflexivity|].
  exact (time_from_sanitized_memo (hd ∅ example_rows) ∅ t E).
Defined.

(** ** The examples of the other claims *)

(** C1 on three rows with the same fingerprint: the second and the third
    get the suffixes 1 and 2. *)
Lemma unique_ids_witness :
  ∃ transactions t1 t2 t3,
    read_csv_file example_rows false = Ok transactions ∧
    transactions !! "" = Some [t1; t2; t3] ∧
    fitid t1 = "NL20INGB0001234567201701011422500" ∧
    fitid t2 = "NL20INGB00012345672017010114225001" ∧
    fitid t3 = "NL20INGB00012345672017010114225002" ∧
    distinct_ids transactions.
Proof.
  destruct (read_csv_file example_rows false) as [transactions|e] eqn:E;
    [|by vm_compute in E].
  pose proof (proj1 (proj2 unique_ids example_rows false transactions E))
    as Hdistinct.
  vm_compute in E. injection E as <-.
  do 4 eexists. split; [reflexivity|]. split; [vm_compute; reflexivity|].
  split; [reflexivity|]. split; [reflexivity|]. split; [reflexivity|].
  exact Hdistinct.
Defined.


(** * Further properties of the code *)

(** ** Reading: the exceptions *)

Lemma bind_Raise {A B} (m : result A) (k : A → result B) (e : exn) :
  m ≫= k = Raise e ↔ m = Raise e ∨ ∃ a, m = Ok a ∧ k a = Raise e.
Proof.
  destruct m as [a|e']; simpl; split.
  - intros Hk. right. by exists a.
  - by intros [[=]|(a' & [= <-] & Hk)].
  - intros [= ->]. by left.
  - by intros [[= ->]|(a & [=] & _)].
Qed.

Lemma getitem_Raise {V} (d : gmap string V) (k : string) (e : exn) :
  getitem d k = Raise e ↔ d !! k = None ∧ e = KeyError k.
Proof.
  unfold getitem. destruct (d !! k) as [v|]; split.
  - done.
  - by intros [[=] _].
  - by intros [= <-].
  - by intros [_ ->].
Qed.

Lemma classifier_raises (ing_code af_bij : string) (e : exn) :
  ing_code_to_trntype ing_code af_bij = Raise e → e = KeyError af_bij.
Proof.
  unfold ing_code_to_trntype. case_decide; [|done].
  by intros [_ ->]%getitem_Raise.
Qed.

Lemma make_unique_id_Ok (accountto dtposted time trnamt : string)
    (idslist : gset string) :
  ∃ uid, make_unique_id accountto dtposted time trnamt idslist = Ok uid.
Proof.
  destruct (make_unique_id_assigned accountto dtposted time trnamt idslist)
    as (uid & H & _). by exists uid.
Qed.

(** A row that is not read raises [KeyError]. *)
Lemma row_transaction_raises (row : gmap string string)
    (idslist : gset string) (e : exn) :
  row_transaction row idslist = Raise e → ∃ k, e = KeyError k.
Proof.
  unfold row_transaction. intros H.
  repeat (apply bind_Raise in H as [H|(? & _ & H)];
          [first [apply getitem_Raise in H as [_ ->]
                 |apply classifier_raises in H as ->
                 |idtac]; try by eexists|]).
  - match type of H with
    | make_unique_id ?a ?d ?t ?x ?i = _ =>
        destruct (make_unique_id_Ok a d t x i) as [uid Huid]
    end.
    congruence.
  - done.
Qed.

Lemma classifier_Ok_flag (ing_code af_bij t : string) :
  ing_code_to_trntype ing_code af_bij = Ok t →
  ing_code ∈ ["DV"; "OV"; "VZ"] → af_bij = "Af" ∨ af_bij = "Bij".
Proof.
  intros H Hin. unfold ing_code_to_trntype in H.
  rewrite decide_True in H by by apply flagged_code.
  apply getitem_Ok in H.
  destruct (decide (af_bij = "Af")); [by left|].
  destruct (decide (af_bij = "Bij")); [by right|].
  by rewrite af_bij_map_other in H.
Qed.

Lemma classifier_Ok (ing_code af_bij : string) :
  (ing_code ∈ ["DV"; "OV"; "VZ"] → af_bij = "Af" ∨ af_bij = "Bij") →
  ∃ t, ing_code_to_trntype ing_code af_bij = Ok t.
Proof.
  intros H. destruct (decide (ing_code ∈ ["DV"; "OV"; "VZ"])) as [Hin|Hin].
  - eexists. by apply classifier_flagged; [|apply H].
  - eexists. by apply classifier_unflagged.
Qed.

Lemma read_rows_raises (split_by_month : bool)
    (rows : list (gmap string string))
    (st : gset string * gmap string (list transaction)) (e : exn) :
  read_rows split_by_month rows st = Raise e → ∃ k, e = KeyError k.
Proof.
  revert st. induction rows as [|row rows IH]; intros st; [done|].
  cbn [read_rows]. intros [H|(st1 & _ & H)]%bind_Raise; [|by eapply IH].
  unfold read_row in H. apply bind_Raise in H as [H|(t & _ & H)]; [|done].
  by eapply row_transaction_raises.
Qed.

Lemma read_csv_file_raises (rows : list (gmap string string))
    (split_by_month : bool) (e : exn) :
  read_csv_file rows split_by_month = Raise e → ∃ k, e = KeyError k.
Proof.
  unfold read_csv_file.
  intros [H|(st & _ & H)]%bind_Raise; [|done]. by eapply read_rows_raises.
Qed.


(** ** Reading: which rows are accepted *)

Ltac in_list := repeat first [apply list_elem_of_here | apply list_elem_of_further].

Lemma raw_re_sub_Ok (r : regex) (repl : string) (v : option string)
    (t : string) :
  Raw.re_sub r repl v = Ok t → ∃ s, v = Some s ∧ t = re_sub r repl s.
Proof. destruct v as [s|]; [|done]. intros [= <-]. by exists s. Qed.

Lemma raw_fix_text_Ok (v : option string) (t : string) :
  Raw.fix_text v = Ok t → ∃ s, v = Some s ∧ t = fix_text s.
Proof. destruct v as [s|]; [|done]. intros [= <-]. by exists s. Qed.

Lemma raw_amount_Ok (amount af_bij : option string) (t : string) :
  Raw.get_transaction_amount amount af_bij = Ok t → ∃ s, amount = Some s.
Proof. destruct amount as [s|]; [|done]. intros _. by exists s. Qed.

Lemma raw_make_unique_id_Ok (accountto dtposted : option string)
    (time trnamt : string) (idslist : gset string) (uid : string) :
  Raw.make_unique_id accountto dtposted time trnamt idslist = Ok uid →
  ∃ a d, accountto = Some a ∧ dtposted = Some d.
Proof.
  destruct accountto as [a|], dtposted as [d|]; try done.
  intros _. by exists a, d.
Qed.

Lemma raw_classifier_Ok (ing_code af_bij : option string) :
  (∀ code, ing_code = Some code → code ∈ ["DV"; "OV"; "VZ"] →
     af_bij = Some "Af" ∨ af_bij = Some "Bij") ↔
  ∃ t, Raw.ing_code_to_trntype ing_code af_bij = Ok t.
Proof.
  destruct ing_code as [code|]; [|split; [by eexists|done]].
  destruct af_bij as [flag|].
  - change (Raw.ing_code_to_trntype (Some code) (Some flag))
      with (ing_code_to_trntype code flag).
    split.
    + intros H. apply classifier_Ok. intros Hin.
      by destruct (H code eq_refl Hin) as [[= ->]|[= ->]]; [left|right].
    + intros [t Ht] code' [= <-] Hin.
      by destruct (classifier_Ok_flag _ _ _ Ht Hin) as [-> | ->];
        [left|right].
  - unfold Raw.ing_code_to_trntype. split.
    + intros H. case_decide as Hin; [|by eexists].
      apply flagged_code in Hin. by destruct (H code eq_refl Hin).
    + intros [t Ht] code' [= <-] Hin%flagged_code.
      by rewrite decide_True in Ht.
Qed.

Lemma raw_classifier_raises (ing_code af_bij : option string) (e : exn) :
  Raw.ing_code_to_trntype ing_code af_bij = Raise e → Raw.reading_error e.
Proof.
  unfold Raw.ing_code_to_trntype, Raw.reading_error.
  destruct ing_code as [code|]; [|done]. case_decide; [|done].
  destruct af_bij as [flag|].
  - intros [_ ->]%getitem_Raise. left. by eexists.
  - intros [= <-]. right. by left.
Qed.

(** The rows that are read are the rows that have the columns, strings in
    the fields that are used as strings, and, with a flagged code, a flag
    of the mapping. *)
Lemma raw_row_transaction_accepts (row : gmap string (option string))
    (idslist : gset string) :
  (∃ t, Raw.row_transaction row idslist = Ok t) ↔ Raw.row_ok row.
Proof.
  split.
  - intros [t H]. unfold Raw.row_transaction in H.
    apply bind_Ok in H as (rekening & H1%getitem_Ok & H).
    apply bind_Ok in H as (account & (? & -> & _)%raw_re_sub_Ok & H).
    apply bind_Ok in H as (code & H2%getitem_Ok & H).
    apply bind_Ok in H as (af_bij & H3%getitem_Ok & H).
    apply bind_Ok in H as (trntype & Htype & H).
    apply bind_Ok in H as (dtposted & H4%getitem_Ok & H).
    apply bind_Ok in H as (bedrag & H5%getitem_Ok & H).
    apply bind_Ok in H as (trnamt & (? & ->)%raw_amount_Ok & H).
    apply bind_Ok in H as (naam & H6%getitem_Ok & H).
    apply bind_Ok in H as (name & (? & -> & _)%raw_fix_text_Ok & H).
    apply bind_Ok in H as (accountto & H7%getitem_Ok & H).
    apply bind_Ok in H as (mededelingen & H8%getitem_Ok & H).
    apply bind_Ok in H as (memo & (? & -> & _)%raw_fix_text_Ok & H).
    apply bind_Ok in H
      as (unique_id & (? & ? & -> & ->)%raw_make_unique_id_Ok & _).
    split; [|split].
    + intros k Hk. unfold columns in Hk. rewrite !elem_of_cons in Hk.
      destruct Hk as [->|[->|[->|[->|[->|[->|[->|[->|Hk]]]]]]]]; eauto.
      by apply elem_of_nil in Hk.
    + intros k Hk. unfold Raw.text_columns in Hk. rewrite !elem_of_cons in Hk.
      destruct Hk as [->|[->|[->|[->|[->|[->|Hk]]]]]]; try congruence.
      by apply elem_of_nil in Hk.
    + intros code' Hcode Hin. rewrite H3.
      assert (af_bij = Some "Af" ∨ af_bij = Some "Bij") as [-> | ->];
        [|by left|by right].
      apply (proj2 (raw_classifier_Ok code af_bij)) with code';
        [by exists trntype|congruence|done].
  - intros (Hcolumns & Htext & Hflag).
    destruct (Hcolumns "Rekening") as [[rekening|] H1]; [in_list| |];
      [|by destruct (Htext "Rekening"); [in_list|]].
    destruct (Hcolumns "Code") as [code H2]; [in_list|].
    destruct (Hcolumns "Af Bij") as [af_bij H3]; [in_list|].
    destruct (Hcolumns "Datum") as [[dtposted|] H4]; [in_list| |];
      [|by destruct (Htext "Datum"); [in_list|]].
    destruct (Hcolumns "Bedrag (EUR)") as [[bedrag|] H5]; [in_list| |];
      [|by destruct (Htext "Bedrag (EUR)"); [in_list|]].
    destruct (Hcolumns "Naam / Omschrijving") as [[naam|] H6]; [in_list| |];
      [|by destruct (Htext "Naam / Omschrijving"); [in_list|]].
    destruct (Hcolumns "Tegenrekening") as [[accountto|] H7]; [in_list| |];
      [|by destruct (Htext "Tegenrekening"); [in_list|]].
    destruct (Hcolumns "Mededelingen") as [[mededelingen|] H8]; [in_list| |];
      [|by destruct (Htext "Mededelingen"); [in_list|]].
    destruct (proj1 (raw_classifier_Ok code af_bij)) as [trntype Htype].
    { intros code' -> Hin.
      destruct (Hflag code' H2 Hin) as [H|H]; rewrite H3 in H;
        injection H as ->; [by left|by right]. }
    unfold Raw.row_transaction, getitem.
    rewrite H1, H2, H3, H4, H5, H6, H7, H8.
    cbn [mbind result_bind Raw.re_sub]. rewrite Htype.
    cbn [mbind result_bind Raw.get_transaction_amount Raw.fix_text
           Raw.re_sub Raw.make_unique_id].
    match goal with
    | |- context [make_unique_id ?a ?d ?t ?x ?i] =>
        destruct (make_unique_id_Ok a d t x i) as [uid ->]
    end.
    by eexists.
Qed.

Lemma raw_re_sub_Raise (r : regex) (repl : string) (v : option string)
    (e : exn) :
  Raw.re_sub r repl v = Raise e → e = TypeError.
Proof. destruct v; [done|]. by intros [= <-]. Qed.

Lemma raw_fix_text_Raise (v : option string) (e : exn) :
  Raw.fix_text v = Raise e → e = TypeError.
Proof. destruct v; [done|]. by intros [= <-]. Qed.

Lemma raw_amount_Raise (amount af_bij : option string) (e : exn) :
  Raw.get_transaction_amount amount af_bij = Raise e → e = AttributeError.
Proof. destruct amount; [done|]. by intros [= <-]. Qed.

Lemma raw_make_unique_id_Raise (accountto dtposted : option string)
    (time trnamt : string) (idslist : gset string) (e : exn) :
  Raw.make_unique_id accountto dtposted time trnamt idslist = Raise e →
  e = TypeError.
Proof.
  destruct accountto as [a|], dtposted as [d|]; try by intros [= <-].
  cbn [Raw.make_unique_id]. intros H.
  destruct (make_unique_id_Ok a d time trnamt idslist) as [uid Huid].
  congruence.
Qed.

(** A row that is not read raises an exception of reading. *)
Lemma raw_row_transaction_raises (row : gmap string (option string))
    (idslist : gset string) (e : exn) :
  Raw.row_transaction row idslist = Raise e → Raw.reading_error e.
Proof.
  assert (∀ k, Raw.reading_error (KeyError k)) as Hkey
    by (intros k; left; by eexists).
  assert (Raw.reading_error TypeError) as Htype by (right; right; by left).
  assert (Raw.reading_error AttributeError) as Hattr by (by do 3 right).
  unfold Raw.row_transaction. intros H.
  apply bind_Raise in H as [[_ ->]%getitem_Raise|(rekening & _ & H)]; [done|].
  apply bind_Raise in H as [->%raw_re_sub_Raise|(account & _ & H)]; [done|].
  apply bind_Raise in H as [[_ ->]%getitem_Raise|(code & _ & H)]; [done|].
  apply bind_Raise in H as [[_ ->]%getitem_Raise|(af_bij & _ & H)]; [done|].
  apply bind_Raise in H as [H|(trntype & _ & H)];
    [by eapply raw_classifier_raises|].
  apply bind_Raise in H as [[_ ->]%getitem_Raise|(dtposted & _ & H)]; [done|].
  apply bind_Raise in H as [[_ ->]%getitem_Raise|(bedrag & _ & H)]; [done|].
  apply bind_Raise in H as [->%raw_amount_Raise|(trnamt & _ & H)]; [done|].
  apply bind_Raise in H as [[_ ->]%getitem_Raise|(naam & _ & H)]; [done|].
  apply bind_Raise in H as [->%raw_fix_text_Raise|(name & _ & H)]; [done|].
  apply bind_Raise in H as [[_ ->]%getitem_Raise|(accountto & _ & H)]; [done|].
  apply bind_Raise in H as [[_ ->]%getitem_Raise|(mededelingen & _ & H)];
    [done|].
  apply bind_Raise in H as [->%raw_fix_text_Raise|(memo & _ & H)]; [done|].
  apply bind_Raise in H as [->%raw_make_unique_id_Raise|(unique_id & _ & H)];
    [done|].
  destruct accountto, dtposted; try done; by injection H as <-.
Qed.

Lemma raw_read_rows_accepts (split_by_month : bool)
    (rows : list (gmap string (option string)))
    (st : gset string * gmap string (list transaction)) :
  (∃ st', Raw.read_rows split_by_month rows st = Ok st') ↔
  Forall Raw.row_ok rows.
Proof.
  revert st. induction rows as [|row rows IH]; intros st.
  { split; [constructor|by eexists]. }
  cbn [Raw.read_rows].
  rewrite Forall_cons, <-(raw_row_transaction_accepts row st.1).
  split.
  - intros (st' & (st1 & Hrow & Hrows)%bind_Ok). split.
    + unfold Raw.read_row in Hrow.
      apply bind_Ok in Hrow as (t & Ht & _). by exists t.
    + apply (IH st1). by exists st'.
  - intros [[t Ht] Hrows]. unfold Raw.read_row. rewrite Ht.
    cbn [mbind result_bind]. by apply IH.
Qed.

Lemma raw_read_rows_raises (split_by_month : bool)
    (rows : list (gmap string (option string)))
    (st : gset string * gmap string (list transaction)) (e : exn) :
  Raw.read_rows split_by_month rows st = Raise e → Raw.reading_error e.
Proof.
  revert st. induction rows as [|row rows IH]; intros st; [done|].
  cbn [Raw.read_rows]. intros [H|(st1 & _ & H)]%bind_Raise; [|by eapply IH].
  unfold Raw.read_row in H. apply bind_Raise in H as [H|(t & _ & H)]; [|done].
  by eapply raw_row_transaction_raises.
Qed.

Lemma raw_read_csv_file_accepts (rows : list (gmap string (option string)))
    (split_by_month : bool) :
  (∃ transactions, Raw.read_csv_file rows split_by_month = Ok transactions) ↔
  Forall Raw.row_ok rows.
Proof.
  unfold Raw.read_csv_file.
  rewrite <-(raw_read_rows_accepts split_by_month rows (∅, ∅)). split.
  - intros (transactions & (st & H & _)%bind_Ok). by exists st.
  - intros (st & ->). by eexists.
Qed.

Lemma raw_read_csv_file_raises (rows : list (gmap string (option string)))
    (split_by_month : bool) (e : exn) :
  Raw.read_csv_file rows split_by_month = Raise e → Raw.reading_error e.
Proof.
  unfold Raw.read_csv_file.
  intros [H|(st & _ & H)]%bind_Raise; [|done]. by eapply raw_read_rows_raises.
Qed.

(** ** Reading: the rows without [None] *)

Lemma raw_row_transaction_strings (row : gmap string string)
    (idslist : gset string) :
  Raw.row_transaction (Some <$> row) idslist = row_transaction row idslist.
Proof.
  unfold Raw.row_transaction, row_transaction, getitem.
  rewrite !lookup_fmap.
  destruct (row !! "Rekening") as [rekening|]; [|done].
  destruct (row !! "Code") as [code|]; [|done].
  destruct (row !! "Af Bij") as [af_bij|]; [|done].
  cbn [fmap option_fmap option_map mbind result_bind Raw.re_sub].
  change (Raw.ing_code_to_trntype (Some code) (Some af_bij))
    with (ing_code_to_trntype code af_bij).
  destruct (ing_code_to_trntype code af_bij) as [trntype|e]; [|done].
  destruct (row !! "Datum") as [dtposted|]; [|done].
  destruct (row !! "Bedrag (EUR)") as [bedrag|]; [|done].
  destruct (row !! "Naam / Omschrijving") as [naam|]; [|done].
  destruct (row !! "Tegenrekening") as [accountto|]; [|done].
  destruct (row !! "Mededelingen") as [mededelingen|]; [|done].
  cbn [fmap option_fmap option_map mbind result_bind Raw.re_sub
         Raw.get_transaction_amount Raw.fix_text Raw.make_unique_id].
  assert ((if decide (Some af_bij = Some "Af") then "-" else "") =
          (if decide (af_bij = "Af") then "-" else "")) as ->.
  { destruct (decide (af_bij = "Af")) as [->|Hne]; [done|].
    rewrite decide_False; [done|]. by intros [= ->]. }
  unfold get_transaction_amount, fix_text.
  by destruct (make_unique_id _ _ _ _ _).
Qed.

Lemma raw_read_rows_strings (split_by_month : bool)
    (rows : list (gmap string string))
    (st : gset string * gmap string (list transaction)) :
  Raw.read_rows split_by_month (Raw.of_strings rows) st =
  read_rows split_by_month rows st.
Proof.
  revert st. induction rows as [|row rows IH]; intros st; [done|].
  unfold Raw.of_strings. cbn [fmap list_fmap Raw.read_rows read_rows].
  unfold Raw.read_row, read_row. rewrite raw_row_transaction_strings.
  destruct (row_transaction row st.1) as [t|e]; [|done].
  cbn [mbind result_bind]. apply IH.
Qed.

Lemma raw_read_csv_file_strings (rows : list (gmap string string))
    (split_by_month : bool) :
  Raw.read_csv_file (Raw.of_strings rows) split_by_month =
  read_csv_file rows split_by_month.
Proof.
  unfold Raw.read_csv_file, read_csv_file.
  by rewrite raw_read_rows_strings.
Qed.

(** X1. [read_csv_file] returns the transactions exactly when every row
    has the eight columns it reads, strings (not [None], the field of a
    line that is too short) in the six fields it uses as strings, and, if
    its code is DV, OV or VZ, a flag that is ['Af'] or ['Bij'].  One row
    that is not so makes the whole read fail, with a [KeyError], a
    [TypeError] or an [AttributeError].  On the rows of a file whose lines
    all have their fields, every failure is a [KeyError]. *)
Theorem accepted_rows (rows : list (gmap string (option string)))
    (split_by_month : bool) :
  ((∃ transactions, Raw.read_csv_file rows split_by_month = Ok transactions)
   ↔ Forall Raw.row_ok rows) ∧
  (∀ e, Raw.read_csv_file rows split_by_month = Raise e →
        (∃ k, e = KeyError k) ∨ e = KeyErrorNone ∨ e = TypeError ∨
        e = AttributeError) ∧
  (∀ string_rows e,
     rows = Raw.of_strings string_rows →
     Raw.read_csv_file rows split_by_month = Raise e → ∃ k, e = KeyError k).
Proof.
  split; [apply raw_read_csv_file_accepts|]. split.
  - intros e. apply raw_read_csv_file_raises.
  - intros string_rows e ->. rewrite raw_read_csv_file_strings.
    apply read_csv_file_raises.
Qed.

(** A row whose line ends before the notes is not read: [fix_text] is
    applied to [None]. *)
Lemma short_row_raises :
  Raw.read_csv_file [example_short_row] true = Raise TypeError.
Proof. reflexivity. Qed.

(** ** Reading: the groups *)

Lemma group_of_default (split_by_month : bool) (m : string)
    (ts : list transaction) :
  default [] (group_of split_by_month m ts) =
  filter (λ t, month_of split_by_month t = m) ts.
Proof. unfold group_of. by destruct (filter _ ts). Qed.

(** Filing one more transaction. *)
Lemma append_to_group (split_by_month : bool) (t : transaction)
    (txs : gmap string (list transaction)) (ts : list transaction) :
  (∀ m, txs !! m = group_of split_by_month m ts) →
  ∀ m, append_to (month_of split_by_month t) t txs !! m =
       group_of split_by_month m (ts ++ [t]).
Proof.
  intros Htxs m. unfold append_to.
  destruct (decide (month_of split_by_month t = m)) as [<-|Hne].
  - rewrite lookup_insert_eq, Htxs, group_of_default. unfold group_of.
    rewrite filter_app, filter_cons_True, filter_nil by done.
    by destruct (filter _ ts).
  - rewrite lookup_insert_ne, Htxs by done. unfold group_of.
    by rewrite filter_app, filter_cons_False, filter_nil, app_nil_r by done.
Qed.

Lemma read_rows_groups (split_by_month : bool)
    (rows : list (gmap string string))
    (st st' : gset string * gmap string (list transaction))
    (ts0 : list transaction) :
  read_rows split_by_month rows st = Ok st' →
  (∀ m, st.2 !! m = group_of split_by_month m ts0) →
  ∃ ts,
    Forall2 (λ row t, ∃ idslist, row_transaction row idslist = Ok t) rows ts ∧
    ∀ m, st'.2 !! m = group_of split_by_month m (ts0 ++ ts).
Proof.
  revert st ts0. induction rows as [|row rows IH]; intros st ts0 H Hst.
  { injection H as <-. exists []. split; [constructor|].
    by rewrite app_nil_r. }
  cbn [read_rows] in H. apply bind_Ok in H as (st1 & Hrow & H).
  apply read_row_Ok in Hrow as (t & Ht & ->).
  destruct (IH _ (ts0 ++ [t]) H) as (ts & Hts & Hgroups).
  { by apply append_to_group. }
  exists (t :: ts). split; [constructor; [by exists st.1|done]|].
  intros m. by rewrite Hgroups, <-app_assoc.
Qed.

(** X2. The transactions [read_csv_file] returns are one for each row, in
    the order of the rows, filed by month: the group of a key holds the
    transactions of that month in the order of their rows, and a key exists
    only for a month that has a transaction.  The month of a transaction is
    the first six characters of its date, or the empty string for all of
    them when the months are not split. *)
Theorem grouped_in_row_order (rows : list (gmap string string))
    (split_by_month : bool)
    (transactions : gmap string (list transaction)) :
  read_csv_file rows split_by_month = Ok transactions →
  ∃ ts,
    Forall2 (λ row t, ∃ idslist, row_transaction row idslist = Ok t) rows ts ∧
    ∀ m, transactions !! m =
         match filter (λ t, (if split_by_month
                             then substring 0 6 (dtposted t) else "") = m) ts
         with
         | [] => None
         | group => Some group
         end.
Proof.
  unfold read_csv_file. intros (st & H & [= <-])%bind_Ok.
  destruct (read_rows_groups _ _ _ _ [] H) as (ts & Hts & Hgroups).
  { intros m. simpl. by rewrite lookup_empty. }
  by exists ts.
Qed.

(** X2 on the three example rows, split by month. *)
Lemma grouped_in_row_order_witness :
  ∃ transactions,
    read_csv_file example_rows true = Ok transactions ∧
    ∃ ts,
      Forall2 (λ row t, ∃ idslist, row_transaction row idslist = Ok t)
        example_rows ts ∧
      ∀ m, transactions !! m =
           match filter (λ t, (if true
                               then substring 0 6 (dtposted t) else "") = m) ts
           with
           | [] => None
           | group => Some group
           end.
Proof.
  destruct (read_csv_file example_rows true) as [transactions|e] eqn:E;
    [|by vm_compute in E].
  exists transactions. split; [reflexivity|].
  exact (grouped_in_row_order example_rows true transactions E).
Defined.

(** ** Reading: the number of transactions *)

Lemma sum_list_perm (l1 l2 : list nat) :
  l1 ≡ₚ l2 → sum_list l1 = sum_list l2.
Proof. induction 1; simpl; lia. Qed.

Lemma transaction_count_perm (txs : gmap string (list transaction))
    (l : list (string * list transaction)) :
  map_to_list txs ≡ₚ l → transaction_count txs = sum_list (length <$> l.*2).
Proof. intros H. unfold transaction_count. apply sum_list_perm. by rewrite H. Qed.

Lemma transaction_count_append (month : string) (t : transaction)
    (txs : gmap string (list transaction)) :
  transaction_count (append_to month t txs) = S (transaction_count txs).
Proof.
  unfold append_to. destruct (txs !! month) as [l|] eqn:Hl; simpl.
  - rewrite <-insert_delete_eq.
    rewrite (transaction_count_perm _ _
               (map_to_list_insert _ _ _ (lookup_delete_eq _ _))).
    rewrite (transaction_count_perm txs _
               (symmetry (map_to_list_delete _ _ _ Hl))).
    simpl. rewrite length_app. simpl. lia.
  - rewrite (transaction_count_perm _ _ (map_to_list_insert _ _ _ Hl)).
    by simpl.
Qed.

Lemma read_rows_count (split_by_month : bool)
    (rows : list (gmap string string))
    (st st' : gset string * gmap string (list transaction)) :
  read_rows split_by_month rows st = Ok st' →
  transaction_count st'.2 = transaction_count st.2 + length rows.
Proof.
  revert st. induction rows as [|row rows IH]; intros st H.
  { injection H as <-. simpl. lia. }
  cbn [read_rows] in H. apply bind_Ok in H as (st1 & Hrow & H).
  apply read_row_Ok in Hrow as (t & Ht & ->).
  rewrite (IH _ H). cbn [snd]. rewrite transaction_count_append. simpl. lia.
Qed.

(** X3. The number of transactions [read_csv_file] returns, over all the
    months, is the number of rows: no row is left out and none is filed
    twice.  (It is the number [main] prints.) *)
Theorem one_transaction_per_row (rows : list (gmap string string))
    (split_by_month : bool)
    (transactions : gmap string (list transaction)) :
  read_csv_file rows split_by_month = Ok transactions →
  transaction_count transactions = length rows.
Proof.
  unfold read_csv_file. intros (st & H & [= <-])%bind_Ok.
  by rewrite (read_rows_count _ _ _ _ H).
Qed.

(** X3 on the three example rows. *)
Lemma one_transaction_per_row_witness :
  ∃ transactions,
    read_csv_file example_rows true = Ok transactions ∧
    transaction_count transactions = 3.
Proof.
  destruct (read_csv_file example_rows true) as [transactions|e] eqn:E;
    [|by vm_compute in E].
  exists transactions. split; [reflexivity|].
  exact (one_transaction_per_row example_rows true transactions E).
Defined.

(** ** Sanitizing: what the result never holds *)

(** One character of an entity against [pre +:+ "&" +:+ post]: either the
    character is the ['&'] and [post] is what follows it, or [pre] goes
    on. *)
Ltac entity_char H pre :=
  destruct pre as [|? pre]; rewrite ?sapp_cons, ?sapp_nil in H;
  [first [discriminate H | injection H as <-]
  |first [discriminate H | injection H as <- H]].

Lemma entity_ampersand (t pre post : string) :
  subst_chars entity t = pre +:+ String "&" post →
  startswith "amp;" post = true ∨ startswith "gt;" post = true ∨
  startswith "lt;" post = true.
Proof.
  revert pre. induction t as [|x t IH]; intros pre H.
  { by destruct pre. }
  cbn [subst_chars] in H. unfold entity in H.
  destruct (Ascii.eqb "&" x) eqn:E1;
    [|destruct (Ascii.eqb ">" x) eqn:E2;
      [|destruct (Ascii.eqb "<" x) eqn:E3]].
  - entity_char H pre; [by left|]. do 4 entity_char H pre.
    by eapply IH.
  - entity_char H pre; [by right; left|]. do 3 entity_char H pre.
    by eapply IH.
  - entity_char H pre; [by right; right|]. do 3 entity_char H pre.
    by eapply IH.
  - destruct pre as [|? pre]; rewrite ?sapp_cons, ?sapp_nil in H.
    + injection H as -> _. done.
    + injection H as <- H. by eapply IH.
Qed.

(** X4. The sanitized text can stand between two tags: it holds no ['<']
    and no ['>'], and every ['&'] in it begins one of the entities
    ['&amp;'], ['&gt;'] and ['&lt;']. *)
Theorem sanitized_text_is_escaped (s : string) :
  occurs "<" (fix_text s) = false ∧ occurs ">" (fix_text s) = false ∧
  ∀ pre post, fix_text s = pre +:+ String "&" post →
    startswith "amp;" post = true ∨ startswith "gt;" post = true ∨
    startswith "lt;" post = true.
Proof.
  rewrite !occurs_count, fix_text_escape.
  destruct (count_escape (strip (collapse_spaces s))) as (_ & _ & Hgt & Hlt).
  split; [done|]. split; [done|]. intros pre post H.
  rewrite escape_entity in H. by eapply entity_ampersand.
Qed.

(** ** The whitespace of a sanitized text *)

Lemma entity_cases (c : ascii) :
  entity c = String c "" ∨
  ∃ rest, entity c = String "&" (rest +:+ ";") ∧
          no_double_space (String "&" (rest +:+ ";")) = true.
Proof.
  unfold entity.
  destruct (Ascii.eqb "&" c); [right; by exists "amp"|].
  destruct (Ascii.eqb ">" c); [right; by exists "gt"|].
  destruct (Ascii.eqb "<" c); [right; by exists "lt"|].
  by left.
Qed.

Lemma entity_nonempty (c : ascii) : entity c ≠ "".
Proof. by destruct (entity_cases c) as [->|(rest & -> & _)]. Qed.

Lemma subst_entity_nonempty (c : ascii) (t : string) :
  subst_chars entity (String c t) ≠ "".
Proof.
  cbn [subst_chars]. pose proof (entity_nonempty c) as H.
  by destruct (entity c).
Qed.

Lemma startswith_space_entity (t : string) :
  startswith " " (subst_chars entity t) = startswith " " t.
Proof.
  destruct t as [|c t]; [done|]. cbn [subst_chars].
  rewrite startswith_app by (apply entity_nonempty || done).
  unfold entity. destruct (Ascii.eqb_spec "&" c) as [<-|_]; [done|].
  destruct (Ascii.eqb_spec ">" c) as [<-|_]; [done|].
  by destruct (Ascii.eqb_spec "<" c) as [<-|_].
Qed.

(** A string that ends with [';'] before a string without a double space. *)
Lemma no_double_space_semicolon (u v : string) :
  no_double_space (u +:+ ";") = true → no_double_space v = true →
  no_double_space ((u +:+ ";") +:+ v) = true.
Proof.
  intros Hu Hv. induction u as [|a u IH].
  - rewrite sapp_nil, sapp_cons, sapp_nil. cbn [no_double_space].
    by rewrite Hv.
  - rewrite sapp_cons in Hu. rewrite !sapp_cons.
    cbn [no_double_space] in Hu |- *.
    apply andb_true_iff in Hu as [Ha Hu]. rewrite (IH Hu), andb_true_r.
    rewrite startswith_app; [done| |done]. by destruct u.
Qed.

Lemma no_double_space_entity (t : string) :
  no_double_space t = true → no_double_space (subst_chars entity t) = true.
Proof.
  induction t as [|c t IH]; [done|]. cbn [no_double_space subst_chars].
  intros [Hc Ht]%andb_true_iff. specialize (IH Ht).
  destruct (entity_cases c) as [->|(rest & -> & Hrest)].
  - rewrite sapp_cons, sapp_nil. cbn [no_double_space].
    by rewrite startswith_space_entity, Hc, IH.
  - by apply (no_double_space_semicolon (String "&" rest)).
Qed.

Lemma lstrip_entity (t : string) :
  lstrip t = t → lstrip (subst_chars entity t) = subst_chars entity t.
Proof.
  intros [->|(c & t' & -> & Hc)]%lstrip_id; [done|].
  apply lstrip_id. right. cbn [subst_chars].
  destruct (entity_cases c) as [->|(rest & -> & _)].
  - exists c, (subst_chars entity t'). by rewrite sapp_cons, sapp_nil.
  - exists "&"%char, ((rest +:+ ";") +:+ subst_chars entity t').
    by rewrite sapp_cons.
Qed.

Lemma rstrip_nonempty (s : string) : rstrip s = s → rstrip s ≠ "" → s ≠ "".
Proof. by intros ->. Qed.

Lemma rstrip_app (u v : string) :
  v ≠ "" → rstrip v = v → rstrip (u +:+ v) = u +:+ v.
Proof.
  intros Hne Hv. induction u as [|a u IH]; [by rewrite sapp_nil|].
  rewrite sapp_cons. cbn [rstrip]. rewrite IH.
  destruct (u +:+ v) eqn:E; [|done].
  destruct u; [by rewrite sapp_nil in E|by rewrite sapp_cons in E].
Qed.

Lemma rstrip_cons (c : ascii) (t : string) :
  rstrip (String c t) = String c t →
  (t = "" ∧ isspace c = false) ∨ (t ≠ "" ∧ rstrip t = t).
Proof.
  cbn [rstrip]. destruct (rstrip t) as [|x r] eqn:E.
  - destruct (isspace c); [done|]. intros [= <-]. by left.
  - intros [= <-]. by right.
Qed.

Lemma rstrip_entity (t : string) :
  rstrip t = t → rstrip (subst_chars entity t) = subst_chars entity t.
Proof.
  induction t as [|c t IH]; [done|].
  intros [[-> Hc]|[Hne Ht]]%rstrip_cons.
  - cbn [subst_chars]. rewrite sapp_empty_r.
    destruct (entity_cases c) as [->|(rest & -> & _)].
    + simpl. by rewrite Hc.
    + apply (rstrip_app (String "&" rest) ";"); done.
  - cbn [subst_chars]. apply rstrip_app; [|by apply IH].
    destruct t as [|x t]; [done|]. apply subst_entity_nonempty.
Qed.

(** X9. The whitespace of a sanitized text is settled: it has no run of
    two or more spaces and no whitespace at its ends, so neither the
    collapsing nor the trimming of a second pass changes it (only the
    escaping of a second pass can). *)
Theorem sanitized_text_whitespace (s : string) :
  re_sub two_or_more_spaces " " (fix_text s) = fix_text s ∧
  strip (fix_text s) = fix_text s.
Proof.
  rewrite re_sub_two_or_more, fix_text_escape, escape_entity.
  pose proof (strip_strip (collapse_spaces s)) as Hstrip.
  assert (no_double_space (strip (collapse_spaces s)) = true) as Hnds
    by apply no_double_space_strip, collapse_no_double_space.
  revert Hstrip Hnds. generalize (strip (collapse_spaces s)). intros t Ht Hnds.
  split.
  - by apply no_double_space_collapse, no_double_space_entity.
  - unfold strip in Ht |- *.
    assert (lstrip t = t) as Hl.
    { destruct (lstrip_split t) as (l & Hsplit & _).
      destruct (rstrip_split (lstrip t)) as (r & Hsplit' & _).
      rewrite Ht in Hsplit'. rewrite Hsplit' in Hsplit.
      apply (f_equal String.length) in Hsplit.
      rewrite !length_sapp in Hsplit.
      assert (String.length r = 0) by lia.
      destruct r; [|done]. by rewrite sapp_empty_r in Hsplit'. }
    rewrite Hl in Ht. by rewrite lstrip_entity, rstrip_entity.
Qed.

(** ** The amount in the ID *)

Lemma amount_in_fitid (bedrag af_bij : string) :
  replace "." "" (replace "-" "" (get_transaction_amount bedrag af_bij)) =
  without "," (without "." (without "-" bedrag)).
Proof.
  unfold get_transaction_amount.
  rewrite !replace_char, !subst_chars_without. unfold without.
  rewrite !keep_app.
  replace (keep _ (keep _ (if decide (af_bij = "Af") then "-" else "")))
    with "" by by destruct (decide _).
  rewrite sapp_nil. induction bedrag as [|x s IH]; [done|].
  cbn [subst_chars]. unfold char_to at 1.
  destruct (Ascii.eqb_spec "," x) as [<-|Hcomma].
  { ssimpl. exact IH. }
  ssimpl. destruct (Ascii.eqb_spec "-" x) as [<-|Hminus]; [exact IH|].
  simpl. destruct (Ascii.eqb_spec "." x) as [<-|Hpoint]; [exact IH|].
  simpl. destruct (Ascii.eqb_spec "," x) as [|_]; [done|].
  simpl. by rewrite IH.
Qed.

(** X8. The ID of a transaction depends on the amount only through its
    characters other than [','], ['.'] and ['-'], and not on the debit or
    credit flag: two amounts with the same other characters, whatever
    their flags, get the same ID from the same set of used IDs. *)
Theorem id_ignores_sign_and_separators
    (accountto dtposted time bedrag1 af_bij1 bedrag2 af_bij2 : string)
    (idslist : gset string) :
  without "," (without "." (without "-" bedrag1)) =
  without "," (without "." (without "-" bedrag2)) →
  make_unique_id accountto dtposted time
    (get_transaction_amount bedrag1 af_bij1) idslist =
  make_unique_id accountto dtposted time
    (get_transaction_amount bedrag2 af_bij2) idslist.
Proof.
  intros H. unfold make_unique_id. by rewrite !amount_in_fitid, H.
Qed.

(** X8 on a debit of 1,00 and a credit of 100. *)
Lemma id_ignores_sign_and_separators_witness :
  make_unique_id "NL01BANK0123456789" "20170305" "1422"
    (get_transaction_amount "1,00" "Af") ∅ =
  make_unique_id "NL01BANK0123456789" "20170305" "1422"
    (get_transaction_amount "100" "Bij") ∅.
Proof.
  apply (id_ignores_sign_and_separators
           "NL01BANK0123456789" "20170305" "1422" "1,00" "Af" "100" "Bij" ∅).
  reflexivity.
Defined.

(** ** The type and the sign *)

Lemma classifier_debit_credit (ing_code af_bij : string) :
  (ing_code_to_trntype ing_code af_bij = Ok "DEBIT" → af_bij = "Af") ∧
  (ing_code_to_trntype ing_code af_bij = Ok "CREDIT" → af_bij = "Bij").
Proof.
  destruct (decide (ing_code ∈ ["DV"; "OV"; "VZ"])) as [Hin|Hin].
  - split; intros H; pose proof (classifier_Ok_flag _ _ _ H Hin) as Hflag;
      rewrite (classifier_flagged _ _ Hin Hflag) in H;
      destruct Hflag as [-> | ->]; done.
  - rewrite (classifier_unflagged _ _ Hin).
    split; intros H; repeat case_decide; discriminate.
Qed.

(** X12. The type and the sign of a transaction agree: a transaction of
    type DEBIT comes from a row with the flag ['Af'] and its amount begins
    with ['-']; a transaction of type CREDIT comes from a row with the flag
    ['Bij'] and its amount is the amount of the row with its commas
    replaced, with no sign put before it. *)
Theorem debit_is_negative (row : gmap string string) (idslist : gset string)
    (t : transaction) :
  row_transaction row idslist = Ok t →
  (trntype t = "DEBIT" →
     row !! "Af Bij" = Some "Af" ∧ startswith "-" (trnamt t) = true) ∧
  (trntype t = "CREDIT" →
     row !! "Af Bij" = Some "Bij" ∧
     ∃ bedrag, row !! "Bedrag (EUR)" = Some bedrag ∧
               trnamt t = replace "," "." bedrag).
Proof.
  intros (rekening & code & af_bij & bedrag & naam & mededelingen &
          _ & _ & Hflag & _ & Hbedrag & _ & _ & _ & _ & Htype & Hamount & _)
    %row_transaction_Ok.
  destruct (classifier_debit_credit code af_bij) as [Hdebit Hcredit].
  split; intros Ht; rewrite Ht in Htype.
  - rewrite (Hdebit Htype) in Hflag, Hamount. split; [done|].
    by rewrite Hamount.
  - rewrite (Hcredit Htype) in Hflag, Hamount. split; [done|].
    exists bedrag. split; [done|]. by rewrite Hamount.
Qed.

(** X12 on a row with the code DV and the flag ['Af']. *)
Lemma debit_is_negative_witness :
  ∃ t,
    row_transaction example_debit ∅ = Ok t ∧
    (trntype t = "DEBIT" →
       example_debit !! "Af Bij" = Some "Af" ∧
       startswith "-" (trnamt t) = true) ∧
    (trntype t = "CREDIT" →
       example_debit !! "Af Bij" = Some "Bij" ∧
       ∃ bedrag, example_debit !! "Bedrag (EUR)" = Some bedrag ∧
                 trnamt t = replace "," "." bedrag).
Proof.
  destruct (row_transaction example_debit ∅) as [t|e] eqn:E;
    [|by vm_compute in E].
  exists t. split; [reflexivity|].
  exact (debit_is_negative example_debit ∅ t E).
Defined.

(** ** Writing: when a statement is written *)

Lemma int_Raise (s : string) (e : exn) : int s = Raise e → e = ValueError s.
Proof.
  unfold int. repeat case_match; by intros [= <-].
Qed.

Lemma map_result_int_Raise (l : list transaction) (e : exn) :
  map_result (λ t, int (dtposted t)) l = Raise e → ∃ w, e = ValueError w.
Proof.
  induction l as [|t l IH]; [done|]. cbn [map_result].
  intros [H|(d & _ & [H|(ds & _ & H)]%bind_Raise)]%bind_Raise; [|by apply IH|done].
  apply int_Raise in H. by eexists.
Qed.

Lemma dates_read (ts : list transaction) :
  Forall (λ t, ∃ d, int (dtposted t) = Ok d) ts ↔
  ∃ dates, map_result (λ t, int (dtposted t)) ts = Ok dates.
Proof.
  setoid_rewrite map_result_Ok. split.
  - induction 1 as [|t ts [d Hd] _ [dates IH]]; [by exists []|].
    exists (d :: dates). by constructor.
  - intros [dates H]. induction H as [|t d ts dates Hd _ IH]; constructor;
      [by exists d|done].
Qed.

(** [find_date_range] returns for the groups that are not empty and whose
    dates [int] reads. *)
Lemma find_date_range_returns (ts : list transaction) :
  (∃ range, find_date_range ts = Ok range) ↔
  ts ≠ [] ∧ Forall (λ t, ∃ d, int (dtposted t) = Ok d) ts.
Proof.
  rewrite dates_read. unfold find_date_range. split.
  - intros (range & (dates & Hdates & H)%bind_Ok).
    split; [|by exists dates]. intros ->. injection Hdates as <-.
    by apply bind_Ok in H as (lo & [=] & _).
  - intros [Hne [dates Hdates]]. rewrite Hdates. cbn [mbind result_bind].
    assert (dates ≠ []) as Hne'.
    { intros ->. apply map_result_Ok in Hdates.
      by apply Forall2_nil_inv_r in Hdates. }
    destruct (min_of_Ok dates Hne') as (lo & -> & _).
    destruct (max_of_Ok dates Hne') as (hi & -> & _). by eexists.
Qed.

Lemma find_date_range_Raise (ts : list transaction) (e : exn) :
  find_date_range ts = Raise e → ∃ w, e = ValueError w.
Proof.
  unfold find_date_range.
  intros [H|(dates & _ & H)]%bind_Raise; [by eapply map_result_int_Raise|].
  destruct dates as [|d dates]; [|done].
  cbn in H. injection H as <-. by eexists.
Qed.

Lemma write_ofx_file_returns (today_str : string)
    (set_iter : gset string → list string) (ts : list transaction) :
  (∃ out, write_ofx_file today_str set_iter ts = Ok out) ↔
  ts ≠ [] ∧ Forall (λ t, ∃ d, int (dtposted t) = Ok d) ts.
Proof.
  rewrite <-find_date_range_returns. unfold write_ofx_file. split.
  - intros (out & (range & H & _)%bind_Ok). by exists range.
  - intros ([lo hi] & ->). by eexists.
Qed.

(** X5. [write_ofx_file] writes a statement exactly for the groups that are
    not empty and whose posted dates are all numerals that [int] reads.
    For an empty group, or with one date that is not such a numeral, it
    fails with a [ValueError], which happens before the header is written:
    nothing is written then. *)
Theorem statement_or_value_error (today_str : string)
    (set_iter : gset string → list string) (ts : list transaction) :
  ((∃ out, write_ofx_file today_str set_iter ts = Ok out) ↔
   ts ≠ [] ∧ Forall (λ t, ∃ d, int (dtposted t) = Ok d) ts) ∧
  (∀ e, write_ofx_file today_str set_iter ts = Raise e →
        ∃ w, e = ValueError w).
Proof.
  split; [apply write_ofx_file_returns|].
  unfold write_ofx_file. intros e [H|([lo hi] & _ & H)]%bind_Raise; [|done].
  by eapply find_date_range_Raise.
Qed.

(** ** Writing: every transaction once *)




Section Writing.
Variable today_str : string.
Variable set_iter : gset string → list string.
Hypothesis set_iter_elements : ∀ X, set_iter X ≡ₚ elements X.

End Writing.


(** ** Reading, then writing *)

Lemma group_of_Some (split_by_month : bool) (m : string)
    (ts group : list transaction) :
  group_of split_by_month m ts = Some group ↔
  group ≠ [] ∧ group = filter (λ t, month_of split_by_month t = m) ts.
Proof.
  unfold group_of. destruct (filter _ ts) as [|t l]; split.
  - done.
  - by intros [? ->].
  - by intros [= <-].
  - by intros [_ ->].
Qed.

(** X7. After a successful read, every group can be written (with no
    [ValueError]) exactly when the date of every row reads as an integer:
    no group is empty, and the dates of the transactions are the dates of
    the rows. *)
Theorem groups_are_written (today_str : string)
    (set_iter : gset string → list string)
    (rows : list (gmap string string)) (split_by_month : bool)
    (transactions : gmap string (list transaction)) :
  read_csv_file rows split_by_month = Ok transactions →
  (∀ m group, transactions !! m = Some group →
     ∃ out, write_ofx_file today_str set_iter group = Ok out) ↔
  Forall (λ row, ∃ datum d, row !! "Datum" = Some datum ∧ int datum = Ok d)
    rows.
Proof.
  unfold read_csv_file. intros (st & H & [= <-])%bind_Ok.
  destruct (read_rows_groups _ _ _ _ [] H) as (ts & Hts & Hgroups).
  { intros m. simpl. by rewrite lookup_empty. }
  simpl in Hgroups. clear H. split.
  - intros Hwrite. apply Forall_forall. intros row Hrow.
    apply list_elem_of_lookup in Hrow as [i Hrow].
    destruct (Forall2_lookup_l _ _ _ _ _ Hts Hrow) as (t & Ht & ids & Hrt).
    apply row_transaction_Ok in Hrt
      as (? & ? & ? & ? & ? & ? & _ & _ & _ & Hdatum & _).
    destruct (Hwrite (month_of split_by_month t)
                (filter (λ t', month_of split_by_month t' =
                               month_of split_by_month t) ts))
      as [out Hout].
    { rewrite Hgroups. apply group_of_Some. split; [|done].
      intros Hnil. assert (t ∈ @nil transaction) as Hin; [|by inversion Hin].
      rewrite <-Hnil. apply list_elem_of_filter. split; [done|].
      by eapply list_elem_of_lookup_2. }
    assert (∃ out, write_ofx_file today_str set_iter
              (filter (λ t', month_of split_by_month t' =
                             month_of split_by_month t) ts) = Ok out)
      as [_ Hdates]%write_ofx_file_returns by by exists out.
    rewrite Forall_forall in Hdates. destruct (Hdates t) as [d Hd].
    { apply list_elem_of_filter. split; [done|].
      by eapply list_elem_of_lookup_2. }
    by exists (dtposted t), d.
  - intros Hrows m group Hgroup. rewrite Hgroups in Hgroup.
    apply group_of_Some in Hgroup as [Hne ->].
    + apply write_ofx_file_returns. split; [done|].
      apply Forall_forall. intros t [_ Ht]%list_elem_of_filter.
      apply list_elem_of_lookup in Ht as [i Ht].
      destruct (Forall2_lookup_r _ _ _ _ _ Hts Ht) as (row & Hrow & ids & Hrt).
      apply row_transaction_Ok in Hrt
        as (? & ? & ? & ? & ? & ? & _ & _ & _ & Hdatum & _).
      rewrite Forall_forall in Hrows.
      destruct (Hrows row) as (datum & d & Hdatum' & Hd).
      { by eapply list_elem_of_lookup_2. }
      exists d. congruence.
Qed.

(** X7 on the three example rows, split by month. *)
Lemma groups_are_written_witness :
  ∃ transactions,
    read_csv_file example_rows true = Ok transactions ∧
    ((∀ m group, transactions !! m = Some group →
        ∃ out, write_ofx_file "20170301" elements group = Ok out) ↔
     Forall (λ row, ∃ datum d, row !! "Datum" = Some datum ∧ int datum = Ok d)
       example_rows).
Proof.
  destruct (read_csv_file example_rows true) as [transactions|e] eqn:E;
    [|by vm_compute in E].
  exists transactions. split; [reflexivity|].
  exact (groups_are_written "20170301" elements example_rows true
           transactions E).
Defined.

(** ** The output file *)

Lemma sapp_inj_l (a x y : string) : a +:+ x = a +:+ y → x = y.
Proof.
  induction a as [|c a IH]; [by rewrite !sapp_nil|].
  rewrite !sapp_cons. intros [= H]. by apply IH.
Qed.

Lemma sapp_inj_r (a x y : string) : x +:+ a = y +:+ a → x = y.
Proof.
  revert y. induction x as [|c x IH]; intros [|d y] H.
  - done.
  - apply (f_equal String.length) in H. rewrite !length_sapp in H.
    simpl in H. lia.
  - apply (f_equal String.length) in H. rewrite !length_sapp in H.
    simpl in H. lia.
  - rewrite !sapp_cons in H. injection H as -> H. by rewrite (IH y H).
Qed.

Lemma occurs_app (c : ascii) (s t : string) :
  occurs c (s +:+ t) = occurs c s || occurs c t.
Proof.
  induction s as [|x s IH]; [done|]. rewrite sapp_cons. cbn [occurs].
  by rewrite IH, orb_assoc.
Qed.

Lemma startswith_occurs (c : ascii) (s : string) :
  occurs c s = false → startswith (String c "") s = false.
Proof.
  destruct s as [|x s]; [done|]. cbn [occurs startswith].
  intros [-> _]%orb_false_iff. done.
Qed.

(** A replacement brings no character that is neither in the text nor in
    what is put in. *)
Lemma occurs_replace_from (c : ascii) (old new s : string) (k : nat) :
  occurs c new = false → occurs c s = false →
  occurs c (replace_from old new s k) = false.
Proof.
  intros Hnew. revert k. induction s as [|x s IH]; intros k; [done|].
  cbn [occurs replace_from]. intros [Hx Hs]%orb_false_iff.
  destruct k as [|k]; [|by apply IH].
  destruct (startswith old (String x s)).
  - by rewrite occurs_app, Hnew, IH.
  - cbn [occurs]. by rewrite Hx, IH.
Qed.

Lemma basename_no_slash (p : string) : occurs "/" (basename p) = false.
Proof.
  induction p as [|c p IH]; [done|]. cbn [basename].
  destruct (occurs "/" p) eqn:Hp; [done|].
  destruct (Ascii.eqb "/" c) eqn:Hc; [done|].
  cbn [occurs]. by rewrite Hc, Hp.
Qed.

Lemma join_separator (a b : string) :
  startswith "/" b = false → join a b = a +:+ separator a +:+ b.
Proof.
  intros Hb. unfold join, separator. rewrite Hb.
  by destruct (String.eqb a "" || endswith "/" a).
Qed.

(** The path of a call is in the directory the call leaves in the
    arguments, which are otherwise unchanged. *)
Lemma open_output_Some (exists_ makedirs_ok : string → bool)
    (getcwd : string) (args : arguments) (month_prefix : string)
    (o : output) :
  open_output exists_ makedirs_ok getcwd args month_prefix = Some o →
  path o = join (dir (args_after o)) (output_filename args month_prefix) ∧
  csvfile (args_after o) = csvfile args ∧
  outfile (args_after o) = outfile args.
Proof.
  unfold open_output. repeat case_match; by intros [= <-].
Qed.

(** The name of the file is the month, ['_'] when there is a month, and a
    name that does not depend on the month. *)
Lemma output_filename_prefix (args : arguments) :
  ∃ name, ∀ month_prefix,
    output_filename args month_prefix =
    (if decide (month_prefix = "") then "" else month_prefix +:+ "_")
      +:+ name.
Proof.
  unfold output_filename. destruct (outfile args) as [[|c name]|].
  - eexists. intros m. cbv zeta. by destruct (decide (m = "")) as [->|].
  - eexists. intros m. cbv zeta. by destruct (decide (m = "")) as [->|].
  - eexists. intros m. cbv zeta. by destruct (decide (m = "")) as [->|].
Qed.

Lemma length_join (a b : string) :
  String.length b ≤ String.length (join a b) ≤
  String.length a + 1 + String.length b.
Proof.
  unfold join. repeat case_match; rewrite ?length_sapp; simpl; lia.
Qed.

Lemma startswith_month (m rest : string) :
  m ≠ "" → startswith "/" m = false → startswith "/" (m +:+ rest) = false.
Proof. intros Hm H. by rewrite startswith_app. Qed.

(** In one directory, the files of two months that do not begin with
    ['/'] are the same file only when the months are the same. *)
Lemma output_path_inj (d : string) (args : arguments)
    (month1 month2 : string) :
  startswith "/" month1 = false → startswith "/" month2 = false →
  join d (output_filename args month1) = join d (output_filename args month2) →
  month1 = month2.
Proof.
  intros Hm1 Hm2 Hpath.
  destruct (output_filename_prefix args) as [name Hname].
  rewrite !Hname in Hpath.
  destruct (decide (month1 = "")) as [->|Hne1];
    destruct (decide (month2 = "")) as [->|Hne2]; [done| | |].
  - rewrite sapp_nil in Hpath.
    rewrite (join_separator d ((month2 +:+ "_") +:+ name)) in Hpath
      by by rewrite sapp_assoc, startswith_month.
    apply (f_equal String.length) in Hpath.
    rewrite !length_sapp in Hpath. unfold separator in *. simpl in Hpath.
    destruct month2; [done|].
    unfold join in *. repeat case_match; rewrite ?length_sapp in *;
      simpl in *; lia.
  - rewrite sapp_nil in Hpath.
    rewrite (join_separator d ((month1 +:+ "_") +:+ name)) in Hpath
      by by rewrite sapp_assoc, startswith_month.
    apply (f_equal String.length) in Hpath.
    rewrite !length_sapp in Hpath. unfold separator in *. simpl in Hpath.
    destruct month1; [done|].
    unfold join in *. repeat case_match; rewrite ?length_sapp in *;
      simpl in *; lia.
  - rewrite !join_separator in Hpath
      by by rewrite sapp_assoc, startswith_month.
    by apply sapp_inj_l, sapp_inj_l, sapp_inj_r, sapp_inj_r in Hpath.
Qed.

(** X10. The files of different months are different files: two calls
    of [open_output] for the same input and output names that leave the
    same directory in the arguments return different paths for different
    months, when no month begins with ['/']. *)
Theorem months_have_their_own_file
    (exists_1 makedirs_ok_1 exists_2 makedirs_ok_2 : string → bool)
    (getcwd1 getcwd2 : string) (args1 args2 : arguments)
    (month1 month2 : string) (o1 o2 : output) :
  open_output exists_1 makedirs_ok_1 getcwd1 args1 month1 = Some o1 →
  open_output exists_2 makedirs_ok_2 getcwd2 args2 month2 = Some o2 →
  csvfile args1 = csvfile args2 → outfile args1 = outfile args2 →
  dir (args_after o1) = dir (args_after o2) →
  startswith "/" month1 = false → startswith "/" month2 = false →
  month1 ≠ month2 → path o1 ≠ path o2.
Proof.
  intros (Hp1 & _ & _)%open_output_Some (Hp2 & _ & _)%open_output_Some.
  intros Hcsv Hout Hdir Hm1 Hm2 Hne Hpath.
  rewrite Hp1, Hp2, Hdir in Hpath.
  assert (output_filename args2 = output_filename args1) as Hsame.
  { unfold output_filename. by rewrite Hcsv, Hout. }
  rewrite Hsame in Hpath. by apply output_path_inj in Hpath.
Qed.

(** X10 for March and April 2017, in a directory that exists. *)
Lemma months_have_their_own_file_witness :
  ∃ o1 o2,
    open_output (λ _, true) (λ _, true) "/home" example_arguments "201703"
      = Some o1 ∧
    open_output (λ _, true) (λ _, true) "/home" example_arguments "201704"
      = Some o2 ∧
    path o1 ≠ path o2.
Proof.
  eexists _, _. split; [reflexivity|]. split; [reflexivity|].
  apply (months_have_their_own_file (λ _, true) (λ _, true) (λ _, true)
           (λ _, true) "/home" "/home" example_arguments example_arguments
           "201703" "201704"); try reflexivity.
  discriminate.
Defined.

(** X11. Without a name given with [-o], the output is a file of the
    output directory itself, whatever the directory of the input: the path
    is the directory the call leaves in the arguments, a ['/'] unless that
    directory is empty or ends with one, and a name without ['/'], for a
    month without ['/']. *)
Theorem default_output_in_directory (exists_ makedirs_ok : string → bool)
    (getcwd : string) (args : arguments) (month_prefix : string)
    (o : output) :
  open_output exists_ makedirs_ok getcwd args month_prefix = Some o →
  outfile args = None ∨ outfile args = Some "" →
  occurs "/" month_prefix = false →
  ∃ filename,
    occurs "/" filename = false ∧
    path o = dir (args_after o)
               +:+ (if String.eqb (dir (args_after o)) "" ||
                       endswith "/" (dir (args_after o))
                    then "" else "/")
               +:+ filename.
Proof.
  intros (Hpath & _ & _)%open_output_Some Hout Hmonth.
  exists (output_filename args month_prefix).
  assert (occurs "/" (output_filename args month_prefix) = false) as Hname.
  { unfold output_filename.
    destruct Hout as [-> | ->]; cbv zeta; rewrite occurs_app;
      (apply orb_false_iff; split;
       [destruct (decide (month_prefix = "")); [done|];
        by rewrite occurs_app, Hmonth
       |unfold replace; do 2 (apply occurs_replace_from; [done|]);
        apply basename_no_slash]). }
  split; [done|]. rewrite Hpath.
  by apply join_separator, startswith_occurs.
Qed.

(** X11 for the input [export/ing.csv] and March 2017, when the output
    directory has to be created. *)
Lemma default_output_in_directory_witness :
  ∃ o filename,
    open_output (λ _, false) (λ _, true) "/home" example_arguments "201703"
      = Some o ∧
    occurs "/" filename = false ∧
    path o = dir (args_after o)
               +:+ (if String.eqb (dir (args_after o)) "" ||
                       endswith "/" (dir (args_after o))
                    then "" else "/")
               +:+ filename.
Proof.
  eexists _.
  destruct (default_output_in_directory (λ _, false) (λ _, true) "/home"
              example_arguments "201703" _ eq_refl (or_introl eq_refl) eq_refl)
    as (filename & Hname & Hpath).
  exists filename. by split.
Defined.

(** ** The run *)

Lemma opened_app (l1 l2 : list event) :
  opened (l1 ++ l2) = opened l1 ++ opened l2.
Proof. unfold opened. apply bind_app. Qed.

Lemma opened_Write (p : string) (written : list string) :
  opened (Write p <$> written) = [].
Proof. induction written as [|d l IH]; [done|]. exact IH. Qed.

(** The names of the files do not change when [open_output] assigns to
    [args.dir]. *)
Lemma output_filename_after (exists_ makedirs_ok : string → bool)
    (getcwd : string) (args : arguments) (month : string) (o : output) :
  open_output exists_ makedirs_ok getcwd args month = Some o →
  output_filename (args_after o) = output_filename args.
Proof.
  intros (_ & Hcsv & Hout)%open_output_Some.
  unfold output_filename. by rewrite Hcsv, Hout.
Qed.

(** An early end of the loop: the events so far are kept, [KeyError] is
    not raised, and [ValueError] is raised right after a file is opened. *)
Lemma write_months_inl (env : environment)
    (transactions : gmap string (list transaction)) (months : list string)
    (args : arguments) (output_files : list string) (log log' : list event)
    (e : error) :
  write_months env transactions months args output_files log = inl (log', e) →
  ∀ x, e = Exception x →
    ∃ w previous output_file,
      x = ValueError w ∧ log' = previous ++ [Open output_file].
Proof.
  revert args output_files log.
  induction months as [|month months IH]; intros args output_files log;
    [done|].
  cbn [write_months].
  destruct (open_output _ _ _ args month) as [o|]; [|by intros [= <- <-]].
  cbv zeta. destruct (env_open env _ (path o)); [|by intros [= <- <-]].
  destruct (write_ofx_file _ _ _) as [written|x'] eqn:Hwrite.
  - apply IH.
  - intros [= <- <-] x [= <-].
    unfold write_ofx_file in Hwrite.
    apply bind_Raise in Hwrite as [Hrange|([lo hi] & _ & [=])].
    apply find_date_range_Raise in Hrange as [w ->].
    by eexists w, _, (path o).
Qed.

(** The loop when it runs to its end: one file is opened for each month,
    in the order of the months, and nothing is printed. *)
Lemma write_months_inr (env : environment)
    (transactions : gmap string (list transaction)) (months : list string)
    (args args' : arguments) (output_files output_files' : list string)
    (log log' : list event) :
  write_months env transactions months args output_files log =
    inr (args', output_files', log') →
  ∃ events,
    log' = log ++ events ∧
    output_files' = output_files ++ opened events ∧
    Forall2 (λ month output_file,
               ∃ d, output_file = join d (output_filename args month))
      months (opened events) ∧
    Forall (λ e, ∀ line, e ≠ Print line) events.
Proof.
  revert args output_files log.
  induction months as [|month months IH]; intros args output_files log.
  { intros [= <- <- <-]. exists []. by rewrite !app_nil_r. }
  cbn [write_months].
  destruct (open_output _ _ _ args month) as [o|] eqn:Ho; [|done].
  cbv zeta. destruct (env_open env _ (path o)); [|done].
  destruct (write_ofx_file _ _ _) as [written|x']; [|done].
  intros (events & -> & -> & Hfiles & Hprint)%IH.
  rewrite (output_filename_after _ _ _ _ _ _ Ho) in Hfiles.
  apply open_output_Some in Ho as (Hpath & _ & _).
  exists (match made o with Some created => [Makedirs created] | None => [] end
          ++ [Open (path o)] ++ (Write (path o) <$> written) ++ events).
  split; [by rewrite <-!app_assoc|].
  rewrite !opened_app, opened_Write.
  replace (opened match made o with
                  | Some created => [Makedirs created]
                  | None => []
                  end) with (@nil string) by by destruct (made o).
  split; [by rewrite <-!app_assoc|]. split.
  - constructor; [by eexists|done].
  - rewrite !Forall_app. split; [by destruct (made o); repeat constructor|].
    split; [by repeat constructor|]. split; [|done].
    apply Forall_fmap, Forall_true. done.
Qed.



Lemma raw_main_strings (env : environment)
    (rows : list (gmap string string)) (args : arguments) :
  Raw.main env (Raw.of_strings rows) args = main env rows args.
Proof. unfold Raw.main, main. by rewrite raw_read_csv_file_strings. Qed.

(** X14. A run ends with an exception of reading the rows ([KeyError],
    [TypeError] or [AttributeError]) exactly when a row of the input is
    not accepted, and then before it has created, opened or printed
    anything.  On the rows of a file whose lines all have their fields,
    the run is the run of [main] above. *)
Theorem rejected_row_before_any_output (env : environment)
    (rows : list (gmap string (option string))) (args : arguments) :
  (¬ Forall Raw.row_ok rows ↔
   ∃ log e, Raw.main env rows args = (log, Some (Exception e)) ∧
            Raw.reading_error e) ∧
  (∀ log e, Raw.main env rows args = (log, Some (Exception e)) →
            Raw.reading_error e → log = []) ∧
  (∀ string_rows, rows = Raw.of_strings string_rows →
                  Raw.main env rows args = main env string_rows args).
Proof.
  assert (∀ log e,
            Raw.main env rows args = (log, Some (Exception e)) →
            Raw.reading_error e →
            log = [] ∧ ∃ e', Raw.read_csv_file rows (split args) = Raise e')
    as Hread.
  { intros log e. unfold Raw.main.
    destruct (Raw.read_csv_file rows (split args)) as [transactions|e'].
    - destruct (write_months _ _ _ _ _ _) as [[log' x]|[[args' files] log']]
        eqn:Hloop; [|done].
      intros [= <- ->] Herror.
      destruct (write_months_inl _ _ _ _ _ _ _ _ Hloop _ eq_refl)
        as (w & _ & _ & -> & _).
      by destruct Herror as [[k [=]]|[[=]|[[=]|[=]]]].
    - intros [= <- _] _. split; [done|]. by exists e'. }
  split; [|split].
  - split.
    + intros Hrows. unfold Raw.main.
      destruct (Raw.read_csv_file rows (split args)) as [transactions|e]
        eqn:Hrows'.
      * destruct Hrows. apply (raw_read_csv_file_accepts rows (split args)).
        by exists transactions.
      * exists [], e. split; [done|].
        by apply raw_read_csv_file_raises in Hrows'.
    + intros (log & e & Hmain & Herror) Hrows.
      destruct (Hread _ _ Hmain Herror) as (_ & e' & He').
      apply (raw_read_csv_file_accepts rows (split args)) in Hrows
        as [transactions Hrows].
      congruence.
  - intros log e Hmain Herror. by destruct (Hread _ _ Hmain Herror).
  - intros string_rows ->. apply raw_main_strings.
Qed.

(** The months of a run, in the order of the loop of [main]. *)
Lemma sorted_keys (transactions : gmap string (list transaction)) :
  StronglySorted String.le (sorted (map_to_list transactions).*1) ∧
  NoDup (sorted (map_to_list transactions).*1) ∧
  ∀ m, m ∈ sorted (map_to_list transactions).*1 ↔
       is_Some (transactions !! m).
Proof.
  unfold sorted. split; [apply StronglySorted_merge_sort; apply _|].
  split.
  - rewrite merge_sort_Permutation. apply NoDup_fst_map_to_list.
  - intros m. rewrite merge_sort_Permutation, list_elem_of_fmap. split.
    + intros ([m' ts] & -> & Hin%elem_of_map_to_list). by exists ts.
    + intros [ts Hts]. exists (m, ts). split; [done|].
      by apply elem_of_map_to_list.
Qed.

(** A run that ends well: its events before the three lines it prints. *)
Lemma main_finished (env : environment) (rows : list (gmap string string))
    (args : arguments) (log : list event) :
  main env rows args = (log, None) →
  ∃ transactions events,
    read_csv_file rows (split args) = Ok transactions ∧
    log = events ++
          [ Print ("Transactions: " +:+
                   str (Z.of_nat (transaction_count transactions)));
            Print ("Input:        " +:+ csvfile args);
            Print ("Output(s):    " +:+ str_join "," (opened events)) ] ∧
    Forall2 (λ month output_file,
               ∃ d, output_file = join d (output_filename args month))
      (sorted (map_to_list transactions).*1) (opened events) ∧
    Forall (λ e, ∀ line, e ≠ Print line) events.
Proof.
  unfold main.
  destruct (read_csv_file rows (split args)) as [transactions|e]; [|done].
  destruct (write_months _ _ _ _ _ _) as [[log' e]|[[args' files] log']]
    eqn:Hloop; [done|].
  intros [= <-].
  apply write_months_inr in Hloop as (events & -> & -> & Hfiles & Hprint).
  by exists transactions, events.
Qed.

(** X15. A run that ends well prints three lines, at its end and
    nothing before: the number of transactions, which is the number of
    rows of the input, the name of the input, and the output files, which
    are the files it has opened, in the order in which it has opened
    them. *)
Theorem statistics_of_a_run (env : environment)
    (rows : list (gmap string string)) (args : arguments)
    (log : list event) :
  main env rows args = (log, None) →
  ∃ events,
    log = events ++
          [ Print ("Transactions: " +:+ str (Z.of_nat (length rows)));
            Print ("Input:        " +:+ csvfile args);
            Print ("Output(s):    " +:+ str_join "," (opened events)) ] ∧
    Forall (λ e, ∀ line, e ≠ Print line) events.
Proof.
  intros (transactions & events & Hread & -> & _ & Hprint)%main_finished.
  exists events. split; [|done].
  unfold read_csv_file in Hread. apply bind_Ok in Hread as (st & H & [= <-]).
  by rewrite (read_rows_count _ _ _ _ H).
Qed.

(** X15 on the three example rows. *)
Lemma statistics_of_a_run_witness :
  ∃ log events,
    main example_environment example_rows example_arguments = (log, None) ∧
    log = events ++
          [ Print ("Transactions: " +:+ str (Z.of_nat (length example_rows)));
            Print ("Input:        " +:+ csvfile example_arguments);
            Print ("Output(s):    " +:+ str_join "," (opened events)) ] ∧
    Forall (λ e, ∀ line, e ≠ Print line) events.
Proof.
  eexists _.
  destruct (statistics_of_a_run example_environment example_rows
              example_arguments _ ltac:(vm_compute; reflexivity))
    as (events & Hlog & Hprint).
  exists events. split; [vm_compute; reflexivity|]. by split.
Defined.

(** X16. A run that ends well opens one file for each month that has a
    transaction, in the ascending order of the months (compared as byte
    strings), and the name of the file of a month is the name
    [open_output] gives it from the arguments of the command line. *)
Theorem one_file_per_month_in_order (env : environment)
    (rows : list (gmap string string)) (args : arguments)
    (log : list event) :
  main env rows args = (log, None) →
  ∃ transactions months,
    read_csv_file rows (split args) = Ok transactions ∧
    StronglySorted String.le months ∧ NoDup months ∧
    (∀ m, m ∈ months ↔ is_Some (transactions !! m)) ∧
    Forall2 (λ month output_file,
               ∃ d, output_file = join d (output_filename args month))
      months (opened log).
Proof.
  intros (transactions & events & Hread & -> & Hfiles & _)%main_finished.
  exists transactions, (sorted (map_to_list transactions).*1).
  split; [done|].
  destruct (sorted_keys transactions) as (Hsorted & Hnodup & Hkeys).
  repeat (split; [done|]).
  by rewrite opened_app, app_nil_r.
Qed.

(** X16 on the three example rows. *)
Lemma one_file_per_month_in_order_witness :
  ∃ log transactions months,
    main example_environment example_rows example_arguments = (log, None) ∧
    read_csv_file example_rows (split example_arguments) = Ok transactions ∧
    StronglySorted String.le months ∧ NoDup months ∧
    (∀ m, m ∈ months ↔ is_Some (transactions !! m)) ∧
    Forall2 (λ month output_file,
               ∃ d, output_file =
                      join d (output_filename example_arguments month))
      months (opened log).
Proof.
  eexists _.
  destruct (one_file_per_month_in_order example_environment example_rows
              example_arguments _ ltac:(vm_compute; reflexivity))
    as (transactions & months & H).
  exists transactions, months. split; [vm_compute; reflexivity|]. exact H.
Defined.

(** ** The files of a run are different files *)

(** A date that [int] reads does not begin with ['/']. *)
Lemma int_not_slash (s : string) (d : Z) :
  int s = Ok d → startswith "/" s = false.
Proof.
  destruct s as [|c s]; [done|]. cbn [startswith].
  destruct (Ascii.eqb_spec "/" c) as [<-|]; [|done].
  intros H. exfalso. revert H. unfold int, strip.
  change (lstrip (String "/" s)) with (String "/" s). cbn [rstrip].
  by destruct (rstrip s).
Qed.

Lemma startswith_substring (p s : string) (n : nat) :
  startswith p (substring 0 n s) = true → startswith p s = true.
Proof.
  revert s n. induction p as [|a p IH]; intros s n; [done|].
  destruct s as [|b s]; [by destruct n|]. destruct n as [|n]; [done|].
  cbn [substring startswith]. intros [-> H]%andb_true_iff.
  by rewrite (IH _ _ H).
Qed.

(** Once the directory of the arguments exists, as it is or in the current
    directory, the loop leaves the arguments alone: every file is in that
    directory. *)
Lemma write_months_settled (env : environment)
    (transactions : gmap string (list transaction)) (months : list string)
    (args args' : arguments) (output_files output_files' : list string)
    (log log' : list event) :
  keeps_directories env →
  env_exists env log (dir args) = true ∨
    env_exists env log (join (env_getcwd env) (dir args)) = true →
  write_months env transactions months args output_files log =
    inr (args', output_files', log') →
  ∃ events,
    log' = log ++ events ∧
    opened events =
      (λ month, join (dir args) (output_filename args month)) <$> months ∧
    Forall (λ month,
              ∃ written,
                write_ofx_file (env_today env) (env_set_iter env)
                  (default [] (transactions !! month)) = Ok written)
      months.
Proof.
  intros [Hkeeps _]. revert output_files log.
  induction months as [|month months IH]; intros output_files log Hdir.
  { intros [= <- <- <-]. exists []. by rewrite app_nil_r. }
  cbn [write_months]. unfold open_output.
  replace (negb (env_exists env log (dir args)) &&
           negb (env_exists env log (join (env_getcwd env) (dir args))))
    with false by by destruct Hdir as [-> | ->]; rewrite ?andb_false_r.
  cbn [made path args_after]. rewrite app_nil_r.
  destruct (env_open env log _); [|done].
  destruct (write_ofx_file _ _ _) as [written|x] eqn:Hwrite; [|done].
  intros (events & -> & Hopened & Hwritten)%IH.
  - eexists (Open _ :: (Write _ <$> written) ++ events).
    split; [by rewrite <-!app_assoc|]. split.
    + change (Open ?p :: ?l) with ([Open p] ++ l).
      rewrite !opened_app, opened_Write, Hopened. done.
    + constructor; [by exists written|done].
  - destruct Hdir as [Hd|Hd]; [left|right];
      rewrite <-?app_assoc; by apply Hkeeps.
Qed.

(** The files of a loop that runs to its end are in one directory. *)
Lemma write_months_paths (env : environment)
    (transactions : gmap string (list transaction)) (months : list string)
    (args args' : arguments) (output_files output_files' : list string)
    (log log' : list event) :
  keeps_directories env →
  write_months env transactions months args output_files log =
    inr (args', output_files', log') →
  ∃ events d,
    log' = log ++ events ∧
    opened events =
      (λ month, join d (output_filename args month)) <$> months ∧
    Forall (λ month,
              ∃ written,
                write_ofx_file (env_today env) (env_set_iter env)
                  (default [] (transactions !! month)) = Ok written)
      months.
Proof.
  intros Hkeeps. destruct months as [|month months].
  { intros [= <- <- <-]. exists [], "". by rewrite app_nil_r. }
  cbn [write_months].
  destruct (open_output _ _ _ args month) as [o|] eqn:Ho; [|done].
  cbv zeta. destruct (env_open env _ (path o)); [|done].
  destruct (write_ofx_file _ _ _) as [written|x] eqn:Hwrite; [|done].
  intros (events & -> & Hopened & Hwritten)%write_months_settled; [|done|].
  - rewrite (output_filename_after _ _ _ _ _ _ Ho) in Hopened.
    apply open_output_Some in Ho as (Hpath & _ & _).
    exists (match made o with Some created => [Makedirs created] | None => [] end
            ++ [Open (path o)] ++ (Write (path o) <$> written) ++ events),
      (dir (args_after o)).
    split; [by rewrite <-!app_assoc|]. split.
    + rewrite !opened_app, opened_Write, Hopened.
      replace (opened match made o with
                      | Some created => [Makedirs created]
                      | None => []
                      end) with (@nil string) by by destruct (made o).
      by rewrite Hpath.
    + constructor; [by exists written|done].
  - destruct Hkeeps as [Hkeeps Hmade]. unfold open_output in Ho.
    destruct (negb (env_exists env log (dir args)) &&
              negb (env_exists env log (join (env_getcwd env) (dir args))))
      eqn:Hnew.
    + destruct (env_makedirs env log _); [|done]. injection Ho as <-.
      cbn [made path args_after dir]. left.
      rewrite <-!app_assoc. apply Hmade.
    + injection Ho as <-. cbn [made path args_after].
      apply andb_false_iff in Hnew as [Hd%negb_false_iff|Hd%negb_false_iff];
        [left|right]; rewrite <-!app_assoc; by apply Hkeeps.
Qed.

(** A month whose group is written does not begin with ['/']. *)
Lemma written_month (today : string) (iter : gset string → list string)
    (rows : list (gmap string string)) (split_by_month : bool)
    (transactions : gmap string (list transaction)) (month : string)
    (written : list string) :
  read_csv_file rows split_by_month = Ok transactions →
  write_ofx_file today iter (default [] (transactions !! month)) = Ok written →
  startswith "/" month = false.
Proof.
  unfold read_csv_file. intros (st & H & [= <-])%bind_Ok Hwrite.
  destruct (read_rows_groups _ _ _ _ [] H) as (ts & _ & Hgroups).
  { intros m. simpl. by rewrite lookup_empty. }
  assert (∃ out, write_ofx_file today iter (default [] (st.2 !! month))
                 = Ok out) as [Hne Hdates]%write_ofx_file_returns
    by by exists written.
  rewrite Hgroups, group_of_default in Hne, Hdates. simpl in Hne, Hdates.
  destruct (filter _ ts) as [|t group] eqn:Hfilter; [done|].
  assert (t ∈ filter (λ t, month_of split_by_month t = month) ts)
    as [Hmonth _]%list_elem_of_filter by (rewrite Hfilter; by left).
  apply Forall_cons in Hdates as [[d Hd%int_not_slash] _].
  rewrite <-Hmonth. unfold month_of. destruct split_by_month; [|done].
  destruct (startswith "/" (substring 0 6 (dtposted t))) eqn:E; [|done].
  apply startswith_substring in E. congruence.
Qed.

(** X17. In a world that keeps what exists, a run that ends well opens
    no file twice: the statement of a month is not overwritten by the
    statement of another month. *)
Theorem no_file_opened_twice (env : environment)
    (rows : list (gmap string string)) (args : arguments)
    (log : list event) :
  keeps_directories env →
  main env rows args = (log, None) →
  NoDup (opened log).
Proof.
  intros Hkeeps. unfold main.
  destruct (read_csv_file rows (split args)) as [transactions|e] eqn:Hread;
    [|done].
  destruct (write_months _ _ _ _ _ _) as [[log' e]|[[args' files] log']]
    eqn:Hloop; [done|].
  intros [= <-].
  apply write_months_paths in Hloop
    as (events & d & -> & Hopened & Hwritten); [|done].
  rewrite opened_app, app_nil_l, app_nil_r, Hopened.
  destruct (sorted_keys transactions) as (_ & Hnodup & _).
  apply NoDup_fmap_2_strong; [|done].
  rewrite Forall_forall in Hwritten.
  intros m1 m2 [w1 H1]%Hwritten [w2 H2]%Hwritten.
  apply output_path_inj; by eapply written_month.
Qed.

Lemma example_environment_keeps : keeps_directories example_environment.
Proof.
  split; intros log events p; cbn [env_exists example_environment];
    rewrite existsb_app.
  - by intros ->.
  - cbn [existsb]. by rewrite String.eqb_refl, orb_true_r.
Qed.

(** X17 on two rows of two months. *)
Lemma no_file_opened_twice_witness :
  ∃ log,
    main example_environment example_two_months example_arguments
      = (log, None) ∧
    length (opened log) = 2 ∧ NoDup (opened log).
Proof.
  eexists. split; [vm_compute; reflexivity|]. split; [reflexivity|].
  apply (no_file_opened_twice example_environment example_two_months
           example_arguments).
  - apply example_environment_keeps.
  - vm_compute. reflexivity.
Defined.
